(** * signatory: the helper layer of the signature transform (src/misc.cpp)

    A shallow embedding of [signatory::misc]: the shape record [SigSpec],
    the graded slicers [slice_by_term] and [slice_at_stream], the layout
    converters [transpose] and [transpose_reverse], the capsule that carries
    a [BackwardsInfo] from the forward to the backward pass, and the two
    argument validators [checkargs] and [checkargs_backward].

    Layout of the development: the host abstractions the code is written
    against (64-bit integers, exceptions, tensor views, capsules), then the
    functions of misc.cpp in source order, then the theorems. *)

From stdpp Require Import base numbers option list strings gmap.
From Stdlib Require Import ZArith QArith Qcanon Lia.

Local Open Scope Z_scope.

(* ===================================================================== *)
(** ** 64-bit signed integers *)
(* ===================================================================== *)

(** [int64_t] values are integers in [-2^63, 2^63); arithmetic is written
    with its two's-complement wrap-around. *)
Module Int64.
Definition modulus : Z := 2 ^ 64.
Definition half_modulus : Z := 2 ^ 63.
Definition min_signed : Z := - half_modulus.
Definition max_signed : Z := half_modulus - 1.

Definition in_range (x : Z) : Prop := min_signed <= x <= max_signed.

Definition wrap (x : Z) : Z := (x + half_modulus) mod modulus - half_modulus.

Definition add (x y : Z) : Z := wrap (x + y).
Definition sub (x y : Z) : Z := wrap (x - y).
Definition mul (x y : Z) : Z := wrap (x * y).
End Int64.

(* ===================================================================== *)
(** ** Binary floating-point numbers *)
(* ===================================================================== *)

(** The finite values of a binary floating-point format are the rationals
    [m * 2^e] with [|m| < 2^prec] and [e >= emin]; an operation gives the
    value of the format nearest to the exact result, the one with an even
    [m] when two are equally near. Infinities, NaN and the sign of zero are
    not in the model: the code under study divides 1 by numbers from 2 on. *)
Module Float.

Record format : Type := {
  prec : Z;
  emin : Z
}.

(** [float]: 24 bits of precision, least positive value 2^-149. *)
Definition binary32 : format := {| prec := 24; emin := -149 |}.

(** [double]: 53 bits of precision, least positive value 2^-1074. *)
Definition binary64 : format := {| prec := 53; emin := -1074 |}.

Definition pow2 (e : Z) : Qc :=
  if 0 <=? e then Qc_of_Z (2 ^ e) else (/ Qc_of_Z (2 ^ (- e)))%Qc.

(** The integer [l] with [2^l <= n / d < 2^(l+1)], for positive [n], [d]. *)
Definition floor_log2 (n d : Z) : Z :=
  let e0 := Z.log2 n - Z.log2 d in
  if (if 0 <=? e0 then d * 2 ^ e0 <=? n else d <=? n * 2 ^ (- e0))
  then e0 else e0 - 1.

(** The integer nearest to [n / d], the even one on a tie ([n >= 0], [d > 0]). *)
Definition nearest_even (n d : Z) : Z :=
  let q := n / d in
  match 2 * (n mod d) ?= d with
  | Lt => q
  | Gt => q + 1
  | Eq => if Z.even q then q else q + 1
  end.

(** Rounding to nearest, ties to even: the unit in the last place is
    [2^e] with [e] the larger of [floor_log2 |x| - prec + 1] and [emin]. *)
Definition round (f : format) (x : Qc) : Qc :=
  let n := Qnum (this x) in
  let d := Z.pos (Qden (this x)) in
  if n =? 0 then 0%Qc
  else
    let a := Z.abs n in
    let e := Z.max (floor_log2 a d - prec f + 1) (emin f) in
    let m := if 0 <=? e then nearest_even a (d * 2 ^ e)
             else nearest_even (a * 2 ^ (- e)) d in
    let v := (Qc_of_Z m * pow2 e)%Qc in
    if n <? 0 then (- v)%Qc else v.

(** The conversion of an integer and the four operations. *)
Definition of_Z (f : format) (n : Z) : Qc := round f (Qc_of_Z n).
Definition add (f : format) (x y : Qc) : Qc := round f (x + y)%Qc.
Definition sub (f : format) (x y : Qc) : Qc := round f (x - y)%Qc.
Definition mul (f : format) (x y : Qc) : Qc := round f (x * y)%Qc.
Definition div (f : format) (x y : Qc) : Qc := round f (x / y)%Qc.

End Float.

(* ===================================================================== *)
(** ** Exceptions *)
(* ===================================================================== *)

(** The code throws [std::invalid_argument] with a message; the tensor
    library throws its own error ([c10::Error]) when an axis or a range is
    out of bounds; [std::vector::reserve] throws [std::length_error] when
    asked for more than a vector can hold. *)
Inductive exn : Type :=
  | invalid_argument (what : string)
  | c10_Error
  | length_error.

Inductive result (A : Type) : Type :=
  | Ok (a : A)
  | Throw (e : exn).
Arguments Ok {A} a.
Arguments Throw {A} e.

#[global] Instance result_ret : MRet result := @Ok.
#[global] Instance result_bind : MBind result := fun A B f r =>
  match r with
  | Ok a => f a
  | Throw e => Throw e
  end.

(** [a || b] of C++ on two computations that may throw: [b] is evaluated
    only when [a] is false. *)
Definition or_else (a b : result bool) : result bool :=
  x ← a; if (x : bool) then Ok true else b.
Infix "|||" := or_else (at level 50, left associativity).

(** [a && b] of C++: [b] is evaluated only when [a] is true. *)
Definition and_then (a b : result bool) : result bool :=
  x ← a; if (x : bool) then b else Ok false.
Infix "&&&" := and_then (at level 40, left associativity).

(** [max_size()] of a [std::vector] of [torch::Tensor], whose elements are
    one pointer of 8 bytes: the largest [ptrdiff_t] divided by 8. *)
Definition vector_max_size : Z := 2 ^ 60 - 1.

(** [out.reserve(n)] with [n] an [int64_t]: an [n] above [max_size()]
    throws, and so does a negative [n], which converts to a size beyond it.
    The capacity of a vector is not part of its content, and running out of
    memory is not modelled. *)
Definition reserve (n : Z) : result unit :=
  if (n <? 0) || (vector_max_size <? n) then Throw length_error else Ok ().

(** A comparison of two integers that are themselves results of calls. *)
Definition compare (f : Z → Z → bool) (a b : result Z) : result bool :=
  x ← a; y ← b; Ok (f x y).
Definition equal (a b : result Z) : result bool := compare Z.eqb a b.
Definition differ (a b : result Z) : result bool :=
  compare (fun x y => negb (x =? y)%Z) a b.

(* ===================================================================== *)
(** ** Tensor views *)
(* ===================================================================== *)

(** The array abstraction of the host library, reduced to what misc.cpp
    uses of it. A [torch::Tensor] is a view: the identity of its backing
    storage, the offset of its first element in that storage and, per axis,
    a size and a stride. [narrow], [squeeze] and [transpose] build new views
    on the same storage; none of them touches the elements. *)
Module Tensor.

(** The dtypes of the model are the two floating-point types,
    [torch::kFloat] and [torch::kDouble]. *)
Inductive ScalarType : Type := kFloat | kDouble.

Definition format_of (dtype : ScalarType) : Float.format :=
  match dtype with
  | kFloat => Float.binary32
  | kDouble => Float.binary64
  end.

Record TensorOptions : Type := {
  dtype : ScalarType;
  device : nat
}.

Record Axis : Type := {
  extent : Z;
  stride : Z
}.

Record t : Type := {
  storage : positive;
  storage_offset : Z;
  axes : list Axis;
  options : TensorOptions
}.

Definition ndimension (x : t) : Z := Z.of_nat (length (axes x)).

Definition sizes (x : t) : list Z := extent <$> axes x.

(** An axis number [d] of an [n]-axis tensor is valid in [-n, n); a
    negative one counts from the last axis. *)
Definition wrap_dim (d : Z) (n : nat) : result nat :=
  if (- Z.of_nat n <=? d) && (d <? Z.of_nat n)
  then Ok (Z.to_nat (if d <? 0 then d + Z.of_nat n else d))
  else Throw c10_Error.

Definition axis (x : t) (d : Z) : result (nat * Axis) :=
  i ← wrap_dim d (length (axes x));
  match axes x !! i with
  | Some a => Ok (i, a)
  | None => Throw c10_Error
  end.

(** [x.size(d)] *)
Definition size (x : t) (d : Z) : result Z :=
  '(_, a) ← axis x d; Ok (extent a).

(** The start of a range in an axis of length [n]: [n] itself is the empty
    range at the end; otherwise [start] is valid in [-n, n), a negative one
    counting from the end (an axis of length zero counts as one of length
    one here). *)
Definition narrow_start (start n : Z) : result Z :=
  if start =? n then Ok start
  else
    let n := if n <=? 0 then 1 else n in
    if (- n <=? start) && (start <? n)
    then Ok (if start <? 0 then start + n else start)
    else Throw c10_Error.

(** [x.narrow(dim, start, len)]: the sub-range [start, start + len) of
    axis [dim], as a view. *)
Definition narrow (x : t) (dim start len : Z) : result t :=
  '(i, a) ← axis x dim;
  start ← narrow_start start (extent a);
  if (0 <=? len) && (start <=? extent a - len)
  then Ok {| storage := storage x;
             storage_offset := storage_offset x + start * stride a;
             axes := <[i := {| extent := len; stride := stride a |}]> (axes x);
             options := options x |}
  else Throw c10_Error.

(** [x.squeeze(dim)]: axis [dim] is removed when its size is one, and the
    view is returned as it is otherwise. A tensor without axes takes the
    axis numbers -1 and 0 and is returned as it is. *)
Definition squeeze (x : t) (dim : Z) : result t :=
  match axes x with
  | [] => if (-1 <=? dim) && (dim <=? 0) then Ok x else Throw c10_Error
  | _ :: _ =>
      '(i, a) ← axis x dim;
      if extent a =? 1
      then Ok {| storage := storage x;
                 storage_offset := storage_offset x;
                 axes := delete i (axes x);
                 options := options x |}
      else Ok x
  end.

(** [x.transpose(dim0, dim1)]: the two axes exchanged, as a view. *)
Definition transpose (x : t) (dim0 dim1 : Z) : result t :=
  '(i, a) ← axis x dim0;
  '(j, b) ← axis x dim1;
  Ok {| storage := storage x;
        storage_offset := storage_offset x;
        axes := <[j := a]> (<[i := b]> (axes x));
        options := options x |}.

(** The distance, in elements, of the element at logical index [idx] from
    the first element of a view with these axes; [None] when [idx] has the
    wrong number of coordinates or one of them is out of range. *)
Fixpoint offset_of (ax : list Axis) (idx : list Z) : option Z :=
  match ax, idx with
  | [], [] => Some 0
  | a :: ax, i :: idx =>
      if (0 <=? i) && (i <? extent a)
      then r ← offset_of ax idx; Some (i * stride a + r)
      else None
  | _, _ => None
  end.

(** The storage cell that [x[idx]] reads and writes. *)
Definition cell (x : t) (idx : list Z) : option (positive * Z) :=
  r ← offset_of (axes x) idx; Some (storage x, storage_offset x + r).

(** Element [idx] of [torch::cat(xs, d)], as the cell of the piece it
    comes from: the pieces are laid one after the other along axis [d]. *)
Fixpoint cat_cell (xs : list t) (d : nat) (idx : list Z) : option (positive * Z) :=
  match xs with
  | [] => None
  | x :: xs =>
      match axes x !! d, idx !! d with
      | Some a, Some i =>
          if i <? extent a then cell x idx
          else cat_cell xs d (<[d := i - extent a]> idx)
      | _, _ => None
      end
  end.

(** A view as the library builds them: no axis has a negative size, and
    every size is an [int64_t]. *)
Definition wf (x : t) : Prop :=
  Forall (fun a => 0 <= extent a <= Int64.max_signed) (axes x).

End Tensor.

(** Tensors the code creates itself ([torch::ones], [torch::linspace]) have
    one axis and are given by their elements, which are values of the
    floating-point format of their dtype: every operation on them rounds. *)
Module torch.

Abbreviation Vector := (list Qc).

Definition format (opts : Tensor.TensorOptions) : Float.format :=
  Tensor.format_of (Tensor.dtype opts).

(** [torch::ones({n}, opts)] *)
Definition ones (opts : Tensor.TensorOptions) (n : Z) : result Vector :=
  if n <? 0 then Throw c10_Error else Ok (replicate (Z.to_nat n) 1%Qc).

(** [torch::linspace(start, end, steps, opts)]: [steps] points evenly
    spaced from [start] to [end], computed in the dtype as
    [start + step * i] with [step = (end - start) / (steps - 1)]. *)
Definition linspace (opts : Tensor.TensorOptions) (start end_ steps : Z)
    : result Vector :=
  let f := format opts in
  if steps <? 0 then Throw c10_Error
  else if steps =? 1 then Ok [Float.of_Z f start]
  else
    let step := Float.div f (Float.sub f (Float.of_Z f end_) (Float.of_Z f start))
                  (Float.of_Z f (steps - 1)) in
    Ok ((fun i => Float.add f (Float.of_Z f start)
                    (Float.mul f step (Float.of_Z f (Z.of_nat i))))
          <$> seq 0 (Z.to_nat steps)).

(** [a /= b] on one-axis tensors of the dtype of [opts]: [b] has the length
    of [a], or length one and is broadcast. *)
Definition div_ (opts : Tensor.TensorOptions) (a b : Vector) : result Vector :=
  let f := format opts in
  if decide (length b = length a) then Ok (zip_with (Float.div f) a b)
  else match b with
       | [y] => Ok ((fun x => Float.div f x y) <$> a)
       | _ => Throw c10_Error
       end.

End torch.

(* ===================================================================== *)
(** ** Capsules of the Python C API *)
(* ===================================================================== *)

(** A capsule wraps a non-null C pointer with a name and a destructor.
    [PyCapsule_GetPointer] gives the pointer back when it is handed a
    capsule and the name it was made with; otherwise it sets the error
    indicator of the interpreter to a [ValueError] and returns NULL.
    Pointers are [option positive], [None] being NULL. *)
Module Python.

Inductive PyCapsule_Destructor : Type :=
  | BackwardsInfoCapsuleDestructor_fn.

Inductive PyObject : Type :=
  | PyCapsule (pointer : positive) (name : option string)
              (destructor : option PyCapsule_Destructor)
  | PyOther.

Inductive exception : Type :=
  | ValueError (msg : string).

Definition error_indicator : Type := option exception.

Definition PyCapsule_New (pointer : option positive) (name : option string)
    (destructor : option PyCapsule_Destructor) (err : error_indicator)
    : option PyObject * error_indicator :=
  match pointer with
  | Some p => (Some (PyCapsule p name destructor), err)
  | None => (None, Some (ValueError "PyCapsule_New called with null pointer"))
  end.

Definition PyCapsule_GetPointer (o : PyObject) (name : option string)
    (err : error_indicator) : option positive * error_indicator :=
  match o with
  | PyCapsule p stored _ =>
      if decide (stored = name) then (Some p, err)
      else (None, Some (ValueError "PyCapsule_GetPointer called with incorrect name"))
  | PyOther =>
      (None, Some (ValueError "PyCapsule_GetPointer called with invalid PyCapsule object"))
  end.

End Python.

(* ===================================================================== *)
(** ** namespace signatory::misc *)
(* ===================================================================== *)

Module misc.

(** Modelled from the spec: [size_type] is declared in misc.hpp, which is
    not among the sources; depth is an integer and is compared and
    subtracted as one, so it is a 64-bit signed integer here. *)
Definition size_type : Type := Z.

(** Modelled from the spec: [signature_channels] is declared in
    utilities.hpp, which is not among the sources. Section 3 of the
    specification gives it: the sum of [input_channels ^ i] for [i] from
    1 to [depth]. *)
Definition signature_channels (input_channels : Z) (depth : size_type) : Z :=
  foldr Z.add 0 ((fun i => input_channels ^ Z.of_nat i) <$> seq 1 (Z.to_nat depth)).

(** Modelled from the spec: the members of [SigSpec] are declared in
    misc.hpp; their names and order are those of the constructor's
    initialiser list. *)
Record SigSpec : Type := {
  opts : Tensor.TensorOptions;
  input_stream_size : Z;
  input_channels : Z;
  batch_size : Z;
  output_stream_size : Z;
  output_channels : Z;
  n_output_dims : Z;
  depth : size_type;
  reciprocals : torch.Vector;
  stream : bool;
  basepoint : bool
}.

(** Modelled from the spec: [LogSignatureMode] is declared outside
    misc.cpp; section 3 lists its three values. *)
Inductive LogSignatureMode : Type := Expand | Brackets | Words.

(** Modelled from the spec: the members of [BackwardsInfo] are declared in
    misc.hpp; the first four are set by the constructor, the last four by
    [set_logsignature_data]. The constructor leaves the two scalar ones
    among the last four without a value: [None]. *)
Record BackwardsInfo : Type := {
  sigspec : SigSpec;
  out_vector : list Tensor.t;
  out : Tensor.t;
  path_increments : Tensor.t;
  signature_vector : list Tensor.t;
  transforms : list (Z * Z * Z);
  mode : option LogSignatureMode;
  logsignature_channels : option Z
}.

(** The free store holding the [BackwardsInfo] objects made by [new]. *)
Abbreviation heap := (gmap positive BackwardsInfo).

Module detail.
Definition backwards_info_capsule_name : string :=
  "signatory.BackwardsInfoCapsule".

(** [delete] of the pointer the capsule gives back; [delete] of NULL
    does nothing. *)
Definition BackwardsInfoCapsuleDestructor (capsule : Python.PyObject)
    (h : heap) (err : Python.error_indicator) : heap * Python.error_indicator :=
  let '(p, err) :=
    Python.PyCapsule_GetPointer capsule (Some backwards_info_capsule_name) err in
  match p with
  | Some a => (delete a h, err)
  | None => (h, err)
  end.
End detail.

(** [SigSpec::SigSpec(path, depth, stream, basepoint)] *)
Definition SigSpec_new (path : Tensor.t) (depth : size_type)
    (stream basepoint : bool) : result SigSpec :=
  size0 ← Tensor.size path 0;
  size1 ← Tensor.size path 1;
  size2 ← Tensor.size path 2;
  ones ← torch.ones (Tensor.options path) (Int64.sub depth 1);
  reciprocals ←
    (if 1 <? depth
     then lin ← torch.linspace (Tensor.options path) 2 depth (Int64.sub depth 1);
          torch.div_ (Tensor.options path) ones lin
     else Ok ones);
  Ok {| opts := Tensor.options path;
        input_stream_size := size0;
        input_channels := size1;
        batch_size := size2;
        output_stream_size := Int64.sub size0 (if basepoint then 0 else 1);
        output_channels := signature_channels size1 depth;
        n_output_dims := if stream then 3 else 2;
        depth := depth;
        reciprocals := reciprocals;
        stream := stream;
        basepoint := basepoint |}.

(** The loop of [slice_by_term], with [n] iterations left. *)
Fixpoint slice_by_term_loop (n : nat) (in_ : Tensor.t) (dim : Z)
    (input_channels : Z) (current_memory_pos current_memory_length : Z)
    (out : list Tensor.t) : result (list Tensor.t) :=
  match n with
  | O => Ok out
  | S n =>
      view ← Tensor.narrow in_ dim current_memory_pos current_memory_length;
      slice_by_term_loop n in_ dim input_channels
        (Int64.add current_memory_pos current_memory_length)
        (Int64.mul current_memory_length input_channels)
        (out ++ [view])
  end.

(** [slice_by_term(in, out, dim, sigspec)]: the result is the content of
    [out] when the call returns. The counter [i] runs from 0 while
    [i < depth], so the loop makes [depth] iterations. *)
Definition slice_by_term (in_ : Tensor.t) (out : list Tensor.t) (dim : Z)
    (sigspec : SigSpec) : result (list Tensor.t) :=
  let out := [] in
  _ ← reserve (depth sigspec);
  slice_by_term_loop (Z.to_nat (depth sigspec)) in_ dim (input_channels sigspec)
    0 (input_channels sigspec) out.

(** The loop of [slice_at_stream] over the elements of [in]. *)
Fixpoint slice_at_stream_loop (in_ : list Tensor.t) (stream_index : Z)
    (out : list Tensor.t) : result (list Tensor.t) :=
  match in_ with
  | [] => Ok out
  | elem :: in_ =>
      narrowed ← Tensor.narrow elem 0 stream_index 1;
      squeezed ← Tensor.squeeze narrowed 0;
      slice_at_stream_loop in_ stream_index (out ++ [squeezed])
  end.

(** [slice_at_stream(in, out, stream_index)]; the size reserved is the
    length of [in]. *)
Definition slice_at_stream (in_ : list Tensor.t) (out : list Tensor.t)
    (stream_index : Z) : result (list Tensor.t) :=
  let out := [] in
  slice_at_stream_loop in_ stream_index out.

(** [transpose(tensor, sigspec)] *)
Definition transpose (tensor : Tensor.t) (sigspec : SigSpec) : result Tensor.t :=
  if stream sigspec
  then x ← Tensor.transpose tensor 1 2; Tensor.transpose x 0 1
  else Tensor.transpose tensor 0 1.

(** [transpose_reverse(tensor, sigspec)] *)
Definition transpose_reverse (tensor : Tensor.t) (sigspec : SigSpec) : result Tensor.t :=
  if stream sigspec
  then x ← Tensor.transpose tensor 0 1; Tensor.transpose x 1 2
  else Tensor.transpose tensor 0 1.

(** [is_even(index)]; [%] truncates towards zero. *)
Definition is_even (index : size_type) : bool := Z.rem index 2 =? 0.

(** [BackwardsInfo::BackwardsInfo(sigspec, out_vector, out, path_increments)].
    The four initialisers copy their arguments; the two vectors among the
    other members start empty. *)
Definition BackwardsInfo_new (sigspec : SigSpec) (out_vector : list Tensor.t)
    (out path_increments : Tensor.t) : BackwardsInfo :=
  {| sigspec := sigspec;
     out_vector := out_vector;
     out := out;
     path_increments := path_increments;
     signature_vector := [];
     transforms := [];
     mode := None;
     logsignature_channels := None |}.

(** [BackwardsInfo::set_logsignature_data(signature_vector_, transforms_,
    mode_, logsignature_channels_)], on the object [this]. *)
Definition set_logsignature_data (this : BackwardsInfo)
    (signature_vector_ : list Tensor.t) (transforms_ : list (Z * Z * Z))
    (mode_ : LogSignatureMode) (logsignature_channels_ : Z) : BackwardsInfo :=
  {| sigspec := sigspec this;
     out_vector := out_vector this;
     out := out this;
     path_increments := path_increments this;
     signature_vector := signature_vector_;
     transforms := transforms_;
     mode := Some mode_;
     logsignature_channels := Some logsignature_channels_ |}.

(** The call [p->set_logsignature_data(...)] on the object at address [p]
    of the free store. *)
Definition set_logsignature_data_at (p : positive)
    (signature_vector_ : list Tensor.t) (transforms_ : list (Z * Z * Z))
    (mode_ : LogSignatureMode) (logsignature_channels_ : Z) (h : heap) : heap :=
  alter (fun this => set_logsignature_data this signature_vector_ transforms_
                       mode_ logsignature_channels_) p h.

(** [make_backwards_info(out_vector, out, path_increments, sigspec)]: the
    object is made by [new] at an address that was free, and the capsule
    around that address is returned. *)
Definition make_backwards_info (out_vector : list Tensor.t)
    (out path_increments : Tensor.t) (sigspec : SigSpec)
    (h : heap) (err : Python.error_indicator)
    : option Python.PyObject * heap * Python.error_indicator :=
  let p := fresh (dom h) in
  let h := <[p := BackwardsInfo_new sigspec out_vector out path_increments]> h in
  let '(capsule, err) :=
    Python.PyCapsule_New (Some p) (Some detail.backwards_info_capsule_name)
      (Some Python.BackwardsInfoCapsuleDestructor_fn) err in
  (capsule, h, err).

(** [get_backwards_info(backwards_info_capsule)]: the pointer that
    [PyCapsule_GetPointer] gives, cast and returned as it is. *)
Definition get_backwards_info (backwards_info_capsule : Python.PyObject)
    (err : Python.error_indicator) : option positive * Python.error_indicator :=
  Python.PyCapsule_GetPointer backwards_info_capsule
    (Some detail.backwards_info_capsule_name) err.

(** [checkargs(path, depth, basepoint, basepoint_value)] *)
Definition checkargs (path : Tensor.t) (depth : size_type) (basepoint : bool)
    (basepoint_value : Tensor.t) : result unit :=
  if negb (Tensor.ndimension path =? 3)
  then Throw (invalid_argument
    "Argument 'path' must be a 3-dimensional tensor, with dimensions corresponding to (batch, stream, channel) respectively.")
  else
  c ← equal (Tensor.size path 0) (Ok 0) ||| equal (Tensor.size path 1) (Ok 0)
      ||| equal (Tensor.size path 2) (Ok 0);
  if (c : bool)
  then Throw (invalid_argument "Argument 'path' cannot have dimensions of size zero.")
  else
  c ← Ok (negb basepoint) &&& equal (Tensor.size path 1) (Ok 1);
  if (c : bool)
  then Throw (invalid_argument
    "Argument 'path' must have stream dimension of size at least 2. (Need at least this many points to define a path.)")
  else
  if depth <? 1
  then Throw (invalid_argument
    "Argument 'depth' must be an integer greater than or equal to one.")
  else
  if basepoint
  then
    if negb (Tensor.ndimension basepoint_value =? 2)
    then Throw (invalid_argument
      "Argument 'basepoint' must be a 2-dimensional tensor, corresponding to (batch, channel) respectively.")
    else
    c ← differ (Tensor.size basepoint_value 0) (Tensor.size path 0)
        ||| differ (Tensor.size basepoint_value 1) (Tensor.size path 2);
    if (c : bool)
    then Throw (invalid_argument
      "Arguments 'basepoint' and 'path' must have dimensions of the same size.")
    else Ok ()
  else Ok ().

(** [checkargs_backward(grad_out, sigspec, num_channels)] *)
Definition checkargs_backward (grad_out : Tensor.t) (sigspec : SigSpec)
    (num_channels : Z) : result unit :=
  let num_channels :=
    if num_channels =? -1 then output_channels sigspec else num_channels in
  if stream sigspec
  then
    if negb (Tensor.ndimension grad_out =? 3)
    then Throw (invalid_argument
      "Gradient must be a 3-dimensional tensor, with dimensions corresponding to (batch, stream, channel) respectively.")
    else
    c ← differ (Tensor.size grad_out 0) (Ok (batch_size sigspec))
        ||| differ (Tensor.size grad_out 1) (Ok (output_stream_size sigspec))
        ||| differ (Tensor.size grad_out 2) (Ok num_channels);
    if (c : bool)
    then Throw (invalid_argument "Gradient has the wrong size.")
    else Ok ()
  else
    if negb (Tensor.ndimension grad_out =? 2)
    then Throw (invalid_argument
      "Gradient must be a 2-dimensional tensor, with dimensionscorresponding to (batch, channel) respectively.")
    else
    c ← differ (Tensor.size grad_out 0) (Ok (batch_size sigspec))
        ||| differ (Tensor.size grad_out 1) (Ok num_channels);
    if (c : bool)
    then Throw (invalid_argument "Gradient has the wrong size.")
    else Ok ().

End misc.

(* ===================================================================== *)
(** ** The contract, in the words of the specification *)
(* ===================================================================== *)

Module Contract.

(** The sum of [c ^ i] for [i] from 1 to [n]. *)
Fixpoint sum_powers (c : Z) (n : nat) : Z :=
  match n with
  | O => 0
  | S n => sum_powers c n + c ^ Z.of_nat (S n)
  end.

(** The view of [x] on the range [start, start + len) of its axis number
    [i], which is [a]: the storage of [x], entered [start] steps of that
    axis further, with the other axes as they are. *)
Definition block (x : Tensor.t) (i : nat) (a : Tensor.Axis) (start len : Z)
    : Tensor.t :=
  {| Tensor.storage := Tensor.storage x;
     Tensor.storage_offset := Tensor.storage_offset x + start * Tensor.stride a;
     Tensor.axes :=
       <[i := {| Tensor.extent := len; Tensor.stride := Tensor.stride a |}]>
         (Tensor.axes x);
     Tensor.options := Tensor.options x |}.

(** The view of [x] for the term of degree [k + 1], when axis [i] of [x]
    is the concatenation of the blocks of lengths [c], [c^2], ... *)
Definition term (x : Tensor.t) (i : nat) (a : Tensor.Axis) (c : Z) (k : nat)
    : Tensor.t :=
  block x i a (sum_powers c k) (c ^ Z.of_nat (S k)).

(** The view of [x] at position [index] of its first axis, which is [a0],
    with that axis removed. *)
Definition at_position (x : Tensor.t) (a0 : Tensor.Axis) (index : Z) : Tensor.t :=
  {| Tensor.storage := Tensor.storage x;
     Tensor.storage_offset := Tensor.storage_offset x + index * Tensor.stride a0;
     Tensor.axes := tail (Tensor.axes x);
     Tensor.options := Tensor.options x |}.

(** The six requirements of [checkargs], in the order they are stated. *)
Inductive requirement : Type :=
  | path_rank
  | path_nonzero
  | stream_length
  | depth_positive
  | basepoint_rank
  | basepoint_shape.

Definition requirements : list requirement :=
  [path_rank; path_nonzero; stream_length; depth_positive;
   basepoint_rank; basepoint_shape].

Definition message (r : requirement) : string :=
  match r with
  | path_rank =>
      "Argument 'path' must be a 3-dimensional tensor, with dimensions corresponding to (batch, stream, channel) respectively."
  | path_nonzero => "Argument 'path' cannot have dimensions of size zero."
  | stream_length =>
      "Argument 'path' must have stream dimension of size at least 2. (Need at least this many points to define a path.)"
  | depth_positive =>
      "Argument 'depth' must be an integer greater than or equal to one."
  | basepoint_rank =>
      "Argument 'basepoint' must be a 2-dimensional tensor, corresponding to (batch, channel) respectively."
  | basepoint_shape =>
      "Arguments 'basepoint' and 'path' must have dimensions of the same size."
  end.

(** Whether the arguments meet a requirement. [path] has the axes
    (batch, sequence, channel) and [basepoint_value] the axes
    (batch, channel). *)
Definition meets (path : Tensor.t) (depth : Z) (basepoint : bool)
    (basepoint_value : Tensor.t) (r : requirement) : bool :=
  match r with
  | path_rank => bool_decide (length (Tensor.sizes path) = 3%nat)
  | path_nonzero => forallb (fun n => negb (n =? 0)) (Tensor.sizes path)
  | stream_length =>
      basepoint || match Tensor.sizes path !! 1%nat with
                   | Some n => 2 <=? n
                   | None => false
                   end
  | depth_positive => 1 <=? depth
  | basepoint_rank =>
      implb basepoint (bool_decide (length (Tensor.sizes basepoint_value) = 2%nat))
  | basepoint_shape =>
      implb basepoint
        (bool_decide (Tensor.sizes basepoint_value !! 0%nat = Tensor.sizes path !! 0%nat
                      ∧ Tensor.sizes basepoint_value !! 1%nat = Tensor.sizes path !! 2%nat))
  end.

Definition first_violation (path : Tensor.t) (depth : Z) (basepoint : bool)
    (basepoint_value : Tensor.t) : option requirement :=
  find (fun r => negb (meets path depth basepoint basepoint_value r)) requirements.

(** What [checkargs] has to do: nothing when every requirement is met,
    and otherwise throw with the message of the first one that is not. *)
Definition checkargs_outcome (path : Tensor.t) (depth : Z) (basepoint : bool)
    (basepoint_value : Tensor.t) : result unit :=
  match first_violation path depth basepoint basepoint_value with
  | None => Ok ()
  | Some r => Throw (invalid_argument (message r))
  end.

(** The channel count [checkargs_backward] compares with: the argument,
    or [output_channels] when the argument is the default, -1. *)
Definition resolved_channels (spec : misc.SigSpec) (num_channels : Z) : Z :=
  if decide (num_channels = -1) then misc.output_channels spec else num_channels.

Definition gradient_rank (spec : misc.SigSpec) : nat :=
  if misc.stream spec then 3%nat else 2%nat.

Definition gradient_sizes (spec : misc.SigSpec) (num_channels : Z) : list Z :=
  if misc.stream spec
  then [misc.batch_size spec; misc.output_stream_size spec; num_channels]
  else [misc.batch_size spec; num_channels].

Definition rank_message (spec : misc.SigSpec) : string :=
  if misc.stream spec
  then "Gradient must be a 3-dimensional tensor, with dimensions corresponding to (batch, stream, channel) respectively."
  else "Gradient must be a 2-dimensional tensor, with dimensionscorresponding to (batch, channel) respectively.".

(** What [checkargs_backward] has to do. *)
Definition checkargs_backward_outcome (grad : Tensor.t) (spec : misc.SigSpec)
    (num_channels : Z) : result unit :=
  if decide (length (Tensor.sizes grad) = gradient_rank spec)
  then
    if decide (Tensor.sizes grad
               = gradient_sizes spec (resolved_channels spec num_channels))
    then Ok ()
    else Throw (invalid_argument "Gradient has the wrong size.")
  else Throw (invalid_argument (rank_message spec)).

(** The logical index in the external layout of the element that has
    index [idx] in the internal layout: (sequence, channel, batch) becomes
    (batch, sequence, channel), and (channel, batch) becomes
    (batch, channel). *)
Definition to_external (stream : bool) (idx : list Z) : list Z :=
  match stream, idx with
  | true, [s; c; b] => [b; s; c]
  | false, [c; b] => [b; c]
  | _, _ => idx
  end.

(** The axes of the external layout from those of the internal one, and
    back, for a tensor with any number of axes beyond those of the layout:
    (sequence, channel, batch, ...) and (batch, sequence, channel, ...), or
    (channel, batch, ...) and (batch, channel, ...). *)
Definition to_external_axes {A : Type} (stream : bool) (l : list A) : list A :=
  match stream, l with
  | true, s :: c :: b :: rest => b :: s :: c :: rest
  | false, c :: b :: rest => b :: c :: rest
  | _, _ => l
  end.

Definition to_internal_axes {A : Type} (stream : bool) (l : list A) : list A :=
  match stream, l with
  | true, b :: s :: c :: rest => s :: c :: b :: rest
  | false, b :: c :: rest => c :: b :: rest
  | _, _ => l
  end.

(** The number of axes a layout names. *)
Definition layout_rank (stream : bool) : Z := if stream then 3 else 2.

(** Whether a handle carries the tag of the [BackwardsInfo] capsules. *)
Definition has_tag (handle : Python.PyObject) : bool :=
  match handle with
  | Python.PyCapsule _ (Some name) _ =>
      String.eqb name "signatory.BackwardsInfoCapsule"
  | _ => false
  end.

End Contract.

(* ===================================================================== *)
(** ** The scenario of the specification *)
(* ===================================================================== *)

(** batch = 2, sequence length = 5, channels = 3, depth = 3, no basepoint. *)
Module Scenario.

Definition float_cpu : Tensor.TensorOptions :=
  {| Tensor.dtype := Tensor.kFloat; Tensor.device := 0 |}.

(** A contiguous tensor with the given sizes, on storage [s]. *)
Fixpoint contiguous_axes (sizes : list Z) : list Tensor.Axis * Z :=
  match sizes with
  | [] => ([], 1)
  | n :: sizes =>
      let '(ax, step) := contiguous_axes sizes in
      ({| Tensor.extent := n; Tensor.stride := step |} :: ax, n * step)
  end.

Definition contiguous (s : positive) (sizes : list Z) : Tensor.t :=
  {| Tensor.storage := s;
     Tensor.storage_offset := 0;
     Tensor.axes := fst (contiguous_axes sizes);
     Tensor.options := float_cpu |}.

(** The path as the caller gives it: (batch, sequence, channel). *)
Definition path : Tensor.t := contiguous 1 [2; 5; 3].

(** The path in the internal layout: (sequence, channel, batch). *)
Definition path_internal : Tensor.t :=
  {| Tensor.storage := 1;
     Tensor.storage_offset := 0;
     Tensor.axes := [ {| Tensor.extent := 5; Tensor.stride := 3 |};
                      {| Tensor.extent := 3; Tensor.stride := 1 |};
                      {| Tensor.extent := 2; Tensor.stride := 15 |} ];
     Tensor.options := float_cpu |}.

(** The shape record of the scenario, with stream; the reciprocals are
    1/2 and 1/3 in single precision. *)
Definition sigspec : misc.SigSpec :=
  {| misc.opts := float_cpu;
     misc.input_stream_size := 5;
     misc.input_channels := 3;
     misc.batch_size := 2;
     misc.output_stream_size := 4;
     misc.output_channels := 39;
     misc.n_output_dims := 3;
     misc.depth := 3;
     misc.reciprocals := [Q2Qc (1 # 2); Q2Qc (11184811 # 33554432)];
     misc.stream := true;
     misc.basepoint := false |}.

(** A basepoint: (batch, channel). *)
Definition basepoint_value : Tensor.t := contiguous 2 [2; 3].

(** The signature with its sequence axis: (sequence, channel, batch),
    39 = 3 + 9 + 27 channels. *)
Definition signature : Tensor.t := contiguous 3 [4; 39; 2].

(** The gradient as the caller gives it: (batch, sequence, channel). *)
Definition grad : Tensor.t := contiguous 4 [2; 4; 39].

End Scenario.

(* ===================================================================== *)
(** ** Facts about tensor views *)
(* ===================================================================== *)

Section TensorFacts.

Implicit Types (x : Tensor.t) (a : Tensor.Axis) (d : Z) (i : nat).

Lemma wrap_dim_nonneg d n :
  0 <= d < Z.of_nat n → Tensor.wrap_dim d n = Ok (Z.to_nat d).
Proof.
  intros Hd. unfold Tensor.wrap_dim.
  replace (- Z.of_nat n <=? d) with true by (symmetry; apply Z.leb_le; lia).
  replace (d <? Z.of_nat n) with true by (symmetry; apply Z.ltb_lt; lia).
  replace (d <? 0) with false by (symmetry; apply Z.ltb_ge; lia).
  reflexivity.
Qed.

Lemma wrap_dim_beyond d n :
  Z.of_nat n <= d → Tensor.wrap_dim d n = Throw c10_Error.
Proof.
  intros Hd. unfold Tensor.wrap_dim.
  replace (d <? Z.of_nat n) with false by (symmetry; apply Z.ltb_ge; lia).
  rewrite andb_false_r. reflexivity.
Qed.

Lemma axis_lookup x i a :
  Tensor.axes x !! i = Some a → Tensor.axis x (Z.of_nat i) = Ok (i, a).
Proof.
  intros Hi. unfold Tensor.axis.
  rewrite wrap_dim_nonneg by (apply lookup_lt_Some in Hi; lia).
  cbn. rewrite Nat2Z.id, Hi. reflexivity.
Qed.

Lemma axis_inv x d i a :
  Tensor.axis x d = Ok (i, a) → Tensor.axes x !! i = Some a.
Proof.
  unfold Tensor.axis. destruct (Tensor.wrap_dim _ _) as [j|]; cbn; [|discriminate].
  destruct (Tensor.axes x !! j) eqn:Hj; [|discriminate].
  intros [= <- <-]. exact Hj.
Qed.

Lemma size_lookup x i a :
  Tensor.axes x !! i = Some a → Tensor.size x (Z.of_nat i) = Ok (Tensor.extent a).
Proof. intros Hi. unfold Tensor.size. rewrite (axis_lookup _ _ _ Hi). reflexivity. Qed.

Lemma axis_at x d a :
  0 <= d → Tensor.axes x !! Z.to_nat d = Some a →
  Tensor.axis x d = Ok (Z.to_nat d, a).
Proof.
  intros Hd Hi. rewrite <- (Z2Nat.id d) at 1 by exact Hd.
  apply axis_lookup, Hi.
Qed.

Lemma size_at x d a :
  0 <= d → Tensor.axes x !! Z.to_nat d = Some a →
  Tensor.size x d = Ok (Tensor.extent a).
Proof. intros Hd Hi. unfold Tensor.size. rewrite (axis_at _ _ _ Hd Hi). reflexivity. Qed.

Lemma sizes_lookup x i :
  Tensor.sizes x !! i = Tensor.extent <$> Tensor.axes x !! i.
Proof. unfold Tensor.sizes. apply list_lookup_fmap. Qed.

Lemma ndimension_eqb x (z : Z) (n : nat) :
  z = Z.of_nat n →
  (Tensor.ndimension x =? z) = bool_decide (length (Tensor.sizes x) = n).
Proof.
  intros ->. unfold Tensor.ndimension, Tensor.sizes. rewrite length_fmap.
  destruct (Z.eqb_spec (Z.of_nat (length (Tensor.axes x))) (Z.of_nat n)) as [E|E];
    symmetry; [apply bool_decide_eq_true | apply bool_decide_eq_false]; lia.
Qed.

Lemma axes_two x :
  length (Tensor.sizes x) = 2%nat → ∃ a0 a1, Tensor.axes x = [a0; a1].
Proof.
  unfold Tensor.sizes. rewrite length_fmap.
  destruct (Tensor.axes x) as [|a0 [|a1 [|a2 l]]]; try discriminate.
  eauto.
Qed.

Lemma axes_three x :
  length (Tensor.sizes x) = 3%nat → ∃ a0 a1 a2, Tensor.axes x = [a0; a1; a2].
Proof.
  unfold Tensor.sizes. rewrite length_fmap.
  destruct (Tensor.axes x) as [|a0 [|a1 [|a2 [|a3 l]]]]; try discriminate.
  eauto.
Qed.

End TensorFacts.

(* ===================================================================== *)
(** ** The argument validators *)
(* ===================================================================== *)

Ltac simpl_checks :=
  cbn [negb andb orb implb mbind result_bind or_else and_then find
       fmap list_fmap forallb lookup list_lookup Contract.message].

(** Claim C3. On a path whose sizes are those of a tensor (none negative),
    [checkargs] returns normally when the six requirements hold: path has
    three axes, none of them of length zero, the sequence axis has length at
    least 2 unless a basepoint is given, depth is at least 1, and a given
    basepoint has two axes whose lengths are the batch and channel lengths
    of path. Otherwise it throws [std::invalid_argument] with the message of
    the first requirement, in that order, that does not hold. *)
Theorem checkargs_first_violation path depth basepoint basepoint_value :
  Tensor.wf path →
  misc.checkargs path depth basepoint basepoint_value
  = Contract.checkargs_outcome path depth basepoint basepoint_value.
Proof.
  intros Hwf. unfold misc.checkargs, Contract.checkargs_outcome, Contract.first_violation,
    Contract.requirements.
  rewrite (ndimension_eqb path 3 3), (ndimension_eqb basepoint_value 2 2) by reflexivity.
  cbn [find Contract.meets]. unfold Tensor.sizes.
  case_bool_decide as Hrank; cbn [negb]; [|reflexivity].
  destruct (axes_three _ Hrank) as (a0 & a1 & a2 & Hax).
  rewrite (size_at path 0 a0), (size_at path 1 a1), (size_at path 2 a2)
    by (rewrite ?Hax; done).
  unfold Tensor.wf in Hwf. rewrite Hax in Hwf.
  apply Forall_cons in Hwf as [H0 Hwf]. apply Forall_cons in Hwf as [H1 Hwf].
  apply Forall_cons in Hwf as [H2 _].
  rewrite Hax.
  unfold equal, differ, compare. simpl_checks.
  destruct (Z.eqb_spec (Tensor.extent a0) 0); simpl_checks; [reflexivity|].
  destruct (Z.eqb_spec (Tensor.extent a1) 0); simpl_checks; [reflexivity|].
  destruct (Z.eqb_spec (Tensor.extent a2) 0); simpl_checks; [reflexivity|].
  assert (Hstream : (if negb basepoint then Ok (Tensor.extent a1 =? 1) else Ok false)
                    = Ok (negb (basepoint || (2 <=? Tensor.extent a1)))).
  { destruct basepoint; simpl_checks; [reflexivity|].
    destruct (Z.eqb_spec (Tensor.extent a1) 1), (Z.leb_spec 2 (Tensor.extent a1));
      (reflexivity || lia). }
  rewrite Hstream. simpl_checks.
  destruct (negb (basepoint || _)); [reflexivity|].
  replace (negb (1 <=? depth)) with (depth <? 1)
    by (destruct (Z.ltb_spec depth 1), (Z.leb_spec 1 depth); (reflexivity || lia)).
  destruct (depth <? 1); [reflexivity|].
  destruct basepoint; simpl_checks; [|reflexivity].
  case_bool_decide as Hbrank; simpl_checks; [|reflexivity].
  destruct (axes_two _ Hbrank) as (b0 & b1 & Hbx).
  rewrite (size_at basepoint_value 0 b0), (size_at basepoint_value 1 b1)
    by (rewrite ?Hbx; done).
  rewrite Hbx. simpl_checks.
  destruct (Z.eqb_spec (Tensor.extent b0) (Tensor.extent a0)) as [E0|E0]; simpl_checks.
  - destruct (Z.eqb_spec (Tensor.extent b1) (Tensor.extent a2)) as [E2|E2]; simpl_checks.
    + rewrite bool_decide_eq_true_2 by (rewrite E0, E2; done). reflexivity.
    + rewrite bool_decide_eq_false_2 by (intros [_ [=]]; done). reflexivity.
  - rewrite bool_decide_eq_false_2 by (intros [[=] _]; done). reflexivity.
Qed.

(** Well-formedness of a concrete view, axis by axis. *)
Ltac solve_wf :=
  unfold Tensor.wf; cbv -[Z.le Z.lt Int64.max_signed];
  repeat (constructor; [split; [ lia | vm_compute; discriminate ] |]);
  constructor.

Lemma checkargs_first_violation_witness :
  misc.checkargs Scenario.path 3 false Scenario.basepoint_value = Ok ().
Proof.
  rewrite (checkargs_first_violation Scenario.path 3 false Scenario.basepoint_value).
  - reflexivity.
  - solve_wf.
Defined.

Example checkargs_rejects_rank :
  misc.checkargs (Scenario.contiguous 1 [2; 5]) 3 false Scenario.basepoint_value
  = Throw (invalid_argument (Contract.message Contract.path_rank)).
Proof. reflexivity. Qed.

Example checkargs_rejects_zero :
  misc.checkargs (Scenario.contiguous 1 [2; 5; 0]) 3 false Scenario.basepoint_value
  = Throw (invalid_argument (Contract.message Contract.path_nonzero)).
Proof. reflexivity. Qed.

Example checkargs_rejects_single_point :
  misc.checkargs (Scenario.contiguous 1 [2; 1; 3]) 3 false Scenario.basepoint_value
  = Throw (invalid_argument (Contract.message Contract.stream_length)).
Proof. reflexivity. Qed.

Example checkargs_accepts_single_point_with_basepoint :
  misc.checkargs (Scenario.contiguous 1 [2; 1; 3]) 3 true Scenario.basepoint_value
  = Ok ().
Proof. reflexivity. Qed.

Example checkargs_rejects_depth :
  misc.checkargs Scenario.path 0 false Scenario.basepoint_value
  = Throw (invalid_argument (Contract.message Contract.depth_positive)).
Proof. reflexivity. Qed.

Example checkargs_rejects_basepoint_rank :
  misc.checkargs Scenario.path 3 true Scenario.path
  = Throw (invalid_argument (Contract.message Contract.basepoint_rank)).
Proof. reflexivity. Qed.

Example checkargs_rejects_basepoint_shape :
  misc.checkargs Scenario.path 3 true (Scenario.contiguous 2 [2; 4])
  = Throw (invalid_argument (Contract.message Contract.basepoint_shape)).
Proof. reflexivity. Qed.

(** Claim C10. Without a basepoint the outcome of [checkargs], the normal return
    or the exception thrown, is the same whatever tensor is passed as
    [basepoint_value]. *)
Theorem checkargs_ignores_basepoint_value path depth basepoint_value basepoint_value' :
  misc.checkargs path depth false basepoint_value
  = misc.checkargs path depth false basepoint_value'.
Proof.
  unfold misc.checkargs.
  destruct (negb (Tensor.ndimension path =? 3)); [reflexivity|].
  destruct (_ ||| _ ||| _) as [[|]|e]; cbn [mbind result_bind]; [reflexivity| |reflexivity].
  destruct (_ &&& _) as [[|]|e]; cbn [mbind result_bind]; [reflexivity| |reflexivity].
  destruct (depth <? 1); reflexivity.
Qed.

(** Claim C5. [checkargs_backward] returns normally exactly when the gradient has
    the sizes (batch_size, output_stream_size, num_channels) with stream,
    and (batch_size, num_channels) without, where a [num_channels] of -1
    stands for [output_channels]. A gradient with another number of axes is
    refused with the message about the axes, and one with the right number
    of axes and another size with the message "Gradient has the wrong
    size."; the function computes nothing else. *)
Theorem checkargs_backward_decides grad spec num_channels :
  misc.checkargs_backward grad spec num_channels
  = Contract.checkargs_backward_outcome grad spec num_channels.
Proof.
  unfold misc.checkargs_backward, Contract.checkargs_backward_outcome,
    Contract.gradient_rank, Contract.gradient_sizes, Contract.rank_message,
    Contract.resolved_channels.
  rewrite (ndimension_eqb grad 3 3), (ndimension_eqb grad 2 2) by reflexivity.
  set (nc := if num_channels =? -1 then _ else _).
  assert (Hnc : (if decide (num_channels = -1)
                 then misc.output_channels spec else num_channels) = nc).
  { subst nc. destruct (Z.eqb_spec num_channels (-1)), (decide (num_channels = -1));
      (reflexivity || contradiction). }
  rewrite Hnc. clear Hnc. clearbody nc. unfold Tensor.sizes.
  destruct (misc.stream spec).
  - case_bool_decide as Hrank; cbn [negb]; destruct (decide _) as [Hr|Hr]; try done.
    destruct (axes_three _ Hrank) as (a0 & a1 & a2 & Hax).
    rewrite (size_at grad 0 a0), (size_at grad 1 a1), (size_at grad 2 a2)
      by (rewrite ?Hax; done).
    rewrite Hax. unfold differ, compare. simpl_checks.
    repeat match goal with
      | |- context [?a =? ?b] => destruct (Z.eqb_spec a b); simpl_checks
      end;
    destruct (decide _) as [Hs|Hs]; try reflexivity;
    first [ exfalso; congruence | exfalso; apply Hs; congruence ].
  - case_bool_decide as Hrank; cbn [negb]; destruct (decide _) as [Hr|Hr]; try done.
    destruct (axes_two _ Hrank) as (a0 & a1 & Hax).
    rewrite (size_at grad 0 a0), (size_at grad 1 a1) by (rewrite ?Hax; done).
    rewrite Hax. unfold differ, compare. simpl_checks.
    repeat match goal with
      | |- context [?a =? ?b] => destruct (Z.eqb_spec a b); simpl_checks
      end;
    destruct (decide _) as [Hs|Hs]; try reflexivity;
    first [ exfalso; congruence | exfalso; apply Hs; congruence ].
Qed.

Example checkargs_backward_accepts :
  misc.checkargs_backward Scenario.grad Scenario.sigspec (-1) = Ok ().
Proof. reflexivity. Qed.

Example checkargs_backward_rejects_size :
  misc.checkargs_backward Scenario.grad Scenario.sigspec 12
  = Throw (invalid_argument "Gradient has the wrong size.").
Proof. reflexivity. Qed.

Example checkargs_backward_rejects_rank :
  misc.checkargs_backward Scenario.basepoint_value Scenario.sigspec (-1)
  = Throw (invalid_argument (Contract.rank_message Scenario.sigspec)).
Proof. reflexivity. Qed.

(* ===================================================================== *)
(** ** 64-bit arithmetic without overflow *)
(* ===================================================================== *)

Lemma wrap_in_range x : Int64.in_range x → Int64.wrap x = x.
Proof.
  unfold Int64.in_range, Int64.min_signed, Int64.max_signed, Int64.wrap.
  assert (Hm : Int64.modulus = 2 * Int64.half_modulus) by reflexivity.
  assert (Hh : 0 < Int64.half_modulus) by reflexivity.
  rewrite Hm. generalize dependent Int64.half_modulus. intros h _ Hh Hx.
  rewrite Z.mod_small; lia.
Qed.

Lemma max_signed_pos : 0 < Int64.max_signed.
Proof. reflexivity. Qed.

Lemma in_range_nonneg x : 0 <= x <= Int64.max_signed → Int64.in_range x.
Proof.
  unfold Int64.in_range, Int64.min_signed, Int64.max_signed.
  assert (Hh : 0 < Int64.half_modulus) by reflexivity. lia.
Qed.

(* ===================================================================== *)
(** ** SigSpec *)
(* ===================================================================== *)

Lemma foldr_add_from (y : Z) (l : list Z) :
  foldr Z.add y l = foldr Z.add 0 l + y.
Proof. induction l as [|z l IH]; cbn [foldr]; lia. Qed.

Lemma signature_channels_sum c depth :
  misc.signature_channels c depth = Contract.sum_powers c (Z.to_nat depth).
Proof.
  unfold misc.signature_channels. generalize (Z.to_nat depth) as n. clear depth.
  induction n as [|n IH]; [reflexivity|].
  rewrite seq_S, fmap_app, foldr_app. cbn [fmap list_fmap foldr Contract.sum_powers].
  rewrite foldr_add_from, IH. change (1 + n)%nat with (S n). lia.
Qed.

(** *** Rounding *)

Lemma nearest_even_exact q d : 0 < d → Float.nearest_even (q * d) d = q.
Proof.
  intros Hd. unfold Float.nearest_even.
  rewrite Z.mod_mul, Z.div_mul by lia.
  replace (2 * 0 ?= d) with Lt by (symmetry; apply Z.compare_lt_iff; lia).
  reflexivity.
Qed.

Lemma floor_log2_integer n : 0 < n → Float.floor_log2 n 1 = Z.log2 n.
Proof.
  intros Hn. unfold Float.floor_log2. change (Z.log2 1) with 0. rewrite Z.sub_0_r.
  pose proof (Z.log2_nonneg n) as Hl.
  replace (0 <=? Z.log2 n) with true by (symmetry; apply Z.leb_le; exact Hl).
  pose proof (Z.log2_spec n Hn) as [Hlow _].
  replace (1 * 2 ^ Z.log2 n <=? n) with true by (symmetry; apply Z.leb_le; lia).
  reflexivity.
Qed.

Lemma Qc_of_Z_pow2_inv k :
  0 <= k → (Qc_of_Z (2 ^ k) * / Qc_of_Z (2 ^ k))%Qc = 1%Qc.
Proof.
  intros Hk. apply Qcmult_inv_r.
  rewrite <- Z2Qc_inj_0. intros H%Z2Qc_inj.
  pose proof (Z.pow_pos_nonneg 2 k ltac:(lia) Hk). lia.
Qed.

(** The integers from 0 to [2^prec] are values of the format. *)
Lemma round_integer f n :
  1 <= Float.prec f → Float.emin f <= 0 →
  0 <= n <= 2 ^ Float.prec f →
  Float.round f (Qc_of_Z n) = Qc_of_Z n.
Proof.
  intros Hp Hemin Hn. unfold Float.round.
  change (Qnum (this (Qc_of_Z n))) with n.
  change (Z.pos (Qden (this (Qc_of_Z n)))) with 1.
  destruct (Z.eqb_spec n 0) as [->|Hn0]; [symmetry; apply Z2Qc_inj_0|].
  replace (n <? 0) with false by (symmetry; apply Z.ltb_ge; lia).
  rewrite Z.abs_eq by lia. rewrite floor_log2_integer by lia.
  assert (Hl : 0 <= Z.log2 n <= Float.prec f).
  { split; [apply Z.log2_nonneg|].
    rewrite <- (Z.log2_pow2 (Float.prec f)) by lia. apply Z.log2_le_mono. lia. }
  set (e := Z.max (Z.log2 n - Float.prec f + 1) (Float.emin f)).
  assert (He : e <= 1) by (subst e; lia).
  assert (Htop : e = 1 → Z.log2 n = Float.prec f) by (subst e; lia).
  clearbody e.
  unfold Float.pow2.
  destruct (Z.leb_spec 0 e) as [Hpos|Hneg].
  - assert (Hdiv : n = n / 2 ^ e * (1 * 2 ^ e)).
    { assert (e = 0 ∨ e = 1) as [->| ->] by lia.
      - change (2 ^ 0) with 1. rewrite Z.div_1_r. lia.
      - specialize (Htop eq_refl).
        pose proof (Z.log2_spec n ltac:(lia)) as [Hlow _]. rewrite Htop in Hlow.
        assert (n = 2 ^ Float.prec f) as -> by lia.
        change (2 ^ 1) with 2.
        replace (Float.prec f) with (Z.succ (Float.prec f - 1)) by lia.
        rewrite Z.pow_succ_r by lia.
        rewrite (Z.mul_comm 2), Z.div_mul by lia. lia. }
    rewrite Hdiv at 1. rewrite nearest_even_exact
      by (pose proof (Z.pow_pos_nonneg 2 e ltac:(lia) Hpos); lia).
    rewrite <- Z2Qc_inj_mul. f_equal. lia.
  - rewrite <- (Z.mul_1_r (n * 2 ^ (- e))).
    rewrite nearest_even_exact by lia.
    rewrite Z2Qc_inj_mul, <- Qcmult_assoc, Qc_of_Z_pow2_inv by lia.
    apply Qcmult_1_r.
Qed.

Lemma format_of_bounds dtype :
  1 <= Float.prec (Tensor.format_of dtype)
  ∧ Float.emin (Tensor.format_of dtype) <= 0
  ∧ 2 ^ Float.prec (Tensor.format_of dtype) <= Int64.max_signed.
Proof. destruct dtype; repeat split; vm_compute; discriminate. Qed.

(** Equality of two closed rationals, by computation. *)
Ltac qc_compute := apply Qc_is_canon; vm_compute; reflexivity.

Example round_third_single :
  Float.round Float.binary32 (Q2Qc (1 # 3)) = Q2Qc (11184811 # 33554432).
Proof. qc_compute. Qed.

Example round_tenth_single :
  Float.round Float.binary32 (Q2Qc (1 # 10)) = Q2Qc (13421773 # 134217728).
Proof. qc_compute. Qed.

Example round_third_double :
  Float.round Float.binary64 (Q2Qc (1 # 3))
  = Q2Qc (6004799503160661 # 18014398509481984).
Proof. qc_compute. Qed.

Example round_odd_integer_single :
  Float.of_Z Float.binary32 16777217 = Qc_of_Z 16777216
  ∧ Float.of_Z Float.binary32 16777219 = Qc_of_Z 16777220.
Proof. split; qc_compute. Qed.

(** *** The reciprocals *)

Lemma zip_with_ones_div (f : Float.format) (g : nat → Qc) (start n : nat) :
  zip_with (Float.div f) (replicate n 1%Qc) (g <$> seq start n)
  = (fun k => Float.div f 1 (g k)) <$> seq start n.
Proof.
  revert start. induction n as [|n IH]; intros start; [reflexivity|].
  cbn. f_equal. apply IH.
Qed.

Lemma linspace_length opts start end_ steps :
  0 <= steps →
  ∃ lin, torch.linspace opts start end_ steps = Ok lin
         ∧ length lin = Z.to_nat steps.
Proof.
  intros Hs. unfold torch.linspace.
  replace (steps <? 0) with false by (symmetry; apply Z.ltb_ge; lia).
  destruct (Z.eqb_spec steps 1) as [->|E].
  - eexists. split; reflexivity.
  - eexists. split; [reflexivity|]. rewrite length_fmap, length_seq. reflexivity.
Qed.

(** While the integers up to [depth] are values of the dtype, the points of
    [linspace(2, depth, depth - 1)] are the integers 2, ..., [depth]. *)
Lemma linspace_integers opts depth :
  2 <= depth <= 2 ^ Float.prec (torch.format opts) →
  torch.linspace opts 2 depth (depth - 1)
  = Ok ((fun k => Qc_of_Z (Z.of_nat k + 2)) <$> seq 0 (Z.to_nat (depth - 1))).
Proof.
  intros Hd. unfold torch.linspace, torch.format in *.
  destruct (format_of_bounds (Tensor.dtype opts)) as (Hp & Hemin & _).
  set (f := Tensor.format_of (Tensor.dtype opts)) in *.
  assert (Hint : ∀ n, 0 <= n <= depth → Float.round f (Qc_of_Z n) = Qc_of_Z n)
    by (intros n Hn; apply round_integer; lia).
  replace (depth - 1 <? 0) with false by (symmetry; apply Z.ltb_ge; lia).
  unfold Float.of_Z. rewrite (Hint 2) by lia.
  destruct (Z.eqb_spec (depth - 1) 1) as [E|E].
  - rewrite E. reflexivity.
  - f_equal. apply list_fmap_ext. intros i k [-> Hi]%lookup_seq.
    replace (depth - 1 - 1) with (depth - 2) by lia.
    rewrite !Hint by lia.
    unfold Float.sub. rewrite <- Z2Qc_inj_sub, Hint by lia.
    unfold Float.div at 1. unfold Qcdiv. rewrite Qcmult_inv_r
      by (rewrite <- Z2Qc_inj_0; intros Hz%Z2Qc_inj; lia).
    rewrite <- Z2Qc_inj_1, Hint by lia.
    unfold Float.mul. rewrite <- Z2Qc_inj_mul, Hint by lia.
    unfold Float.add. rewrite <- Z2Qc_inj_add, Hint by lia.
    f_equal. lia.
Qed.

(** The computation of [reciprocals] returns [depth - 1] elements. *)
Lemma reciprocals_length opts depth :
  1 <= depth <= Int64.max_signed →
  ∃ recips,
    (ones ← torch.ones opts (Int64.sub depth 1);
     if 1 <? depth
     then lin ← torch.linspace opts 2 depth (Int64.sub depth 1);
          torch.div_ opts ones lin
     else Ok ones) = Ok recips
    ∧ length recips = Z.to_nat (depth - 1).
Proof.
  intros Hd. unfold Int64.sub. rewrite wrap_in_range by (apply in_range_nonneg; lia).
  unfold torch.ones.
  replace (depth - 1 <? 0) with false by (symmetry; apply Z.ltb_ge; lia).
  cbn [mbind result_bind].
  destruct (Z.ltb_spec 1 depth) as [H1|H1].
  - destruct (linspace_length opts 2 depth (depth - 1) ltac:(lia)) as (lin & -> & Hlen).
    cbn [mbind result_bind]. unfold torch.div_.
    rewrite length_replicate, decide_True by exact Hlen.
    eexists. split; [reflexivity|].
    rewrite length_zip_with, length_replicate, Hlen. lia.
  - eexists. split; [reflexivity|]. apply length_replicate.
Qed.

(** While the integers up to [depth] are values of the dtype, the elements
    are the quotients of 1 by 2, ..., [depth], rounded. *)
Lemma reciprocals_rounded opts depth :
  1 <= depth <= 2 ^ Float.prec (torch.format opts) →
  (ones ← torch.ones opts (Int64.sub depth 1);
   if 1 <? depth
   then lin ← torch.linspace opts 2 depth (Int64.sub depth 1);
        torch.div_ opts ones lin
   else Ok ones)
  = Ok ((fun k => Float.round (torch.format opts) (1 / Qc_of_Z (Z.of_nat k + 2))%Qc)
          <$> seq 0 (Z.to_nat (depth - 1))).
Proof.
  intros Hd.
  destruct (format_of_bounds (Tensor.dtype opts)) as (_ & _ & Hmax).
  fold (torch.format opts) in Hmax.
  unfold Int64.sub. rewrite wrap_in_range by (apply in_range_nonneg; lia).
  unfold torch.ones.
  replace (depth - 1 <? 0) with false by (symmetry; apply Z.ltb_ge; lia).
  cbn [mbind result_bind].
  destruct (Z.ltb_spec 1 depth) as [H1|H1].
  - rewrite linspace_integers by lia. cbn [mbind result_bind].
    unfold torch.div_. rewrite length_fmap, length_seq, length_replicate.
    rewrite decide_True by reflexivity.
    rewrite zip_with_ones_div. reflexivity.
  - replace depth with 1 by lia. reflexivity.
Qed.

(** At every depth from 3 on, the elements are the rounded quotients of 1
    by the points of [linspace], whether these are integers or not. *)
Lemma reciprocals_points opts depth :
  3 <= depth <= Int64.max_signed →
  let f := torch.format opts in
  let step := Float.div f (Float.sub f (Float.of_Z f depth) (Float.of_Z f 2))
                (Float.of_Z f (depth - 2)) in
  (ones ← torch.ones opts (Int64.sub depth 1);
   if 1 <? depth
   then lin ← torch.linspace opts 2 depth (Int64.sub depth 1);
        torch.div_ opts ones lin
   else Ok ones)
  = Ok ((fun i => Float.div f 1
                    (Float.add f (Float.of_Z f 2)
                       (Float.mul f step (Float.of_Z f (Z.of_nat i)))))
          <$> seq 0 (Z.to_nat (depth - 1))).
Proof.
  intros Hd f step.
  unfold Int64.sub. rewrite wrap_in_range by (apply in_range_nonneg; lia).
  unfold torch.ones, torch.linspace. fold f.
  replace (depth - 1 <? 0) with false by (symmetry; apply Z.ltb_ge; lia).
  replace (1 <? depth) with true by (symmetry; apply Z.ltb_lt; lia).
  replace (depth - 1 =? 1) with false by (symmetry; apply Z.eqb_neq; lia).
  replace (depth - 1 - 1) with (depth - 2) by lia. fold step.
  cbn [mbind result_bind]. unfold torch.div_. fold f.
  rewrite length_fmap, length_seq, length_replicate.
  rewrite decide_True by reflexivity.
  rewrite zip_with_ones_div. reflexivity.
Qed.

Lemma SigSpec_new_ok path depth stream basepoint :
  3 <= Tensor.ndimension path → 1 <= depth <= Int64.max_signed →
  ∃ size0 size1 size2 recips,
    Tensor.size path 0 = Ok size0 ∧ Tensor.size path 1 = Ok size1
    ∧ Tensor.size path 2 = Ok size2
    ∧ length recips = Z.to_nat (depth - 1)
    ∧ misc.SigSpec_new path depth stream basepoint
      = Ok {| misc.opts := Tensor.options path;
              misc.input_stream_size := size0;
              misc.input_channels := size1;
              misc.batch_size := size2;
              misc.output_stream_size := Int64.sub size0 (if basepoint then 0 else 1);
              misc.output_channels := misc.signature_channels size1 depth;
              misc.n_output_dims := if stream then 3 else 2;
              misc.depth := depth;
              misc.reciprocals := recips;
              misc.stream := stream;
              misc.basepoint := basepoint |}.
Proof.
  intros Hrank Hd. unfold Tensor.ndimension in Hrank.
  destruct (Tensor.axes path) as [|a0 [|a1 [|a2 l]]] eqn:Hax;
    cbn [length] in Hrank; try lia.
  destruct (reciprocals_length (Tensor.options path) depth Hd) as (recips & Hr & Hlen).
  exists (Tensor.extent a0), (Tensor.extent a1), (Tensor.extent a2), recips.
  assert (H0 : Tensor.size path 0 = Ok (Tensor.extent a0))
    by (apply size_at; [lia | rewrite Hax; reflexivity]).
  assert (H1 : Tensor.size path 1 = Ok (Tensor.extent a1))
    by (apply size_at; [lia | rewrite Hax; reflexivity]).
  assert (H2 : Tensor.size path 2 = Ok (Tensor.extent a2))
    by (apply size_at; [lia | rewrite Hax; reflexivity]).
  repeat split; try assumption.
  unfold misc.SigSpec_new. rewrite H0, H1, H2. cbn [mbind result_bind].
  destruct (torch.ones _ _) as [ones|e]; cbn [mbind result_bind] in Hr |- *; [|discriminate].
  rewrite Hr. reflexivity.
Qed.

(** The [reciprocals] of the record are what the computation on the
    dtype of the path returns. *)
Lemma SigSpec_new_reciprocals path depth stream basepoint :
  3 <= Tensor.ndimension path → 1 <= depth <= Int64.max_signed →
  ∃ spec, misc.SigSpec_new path depth stream basepoint = Ok spec
    ∧ (ones ← torch.ones (Tensor.options path) (Int64.sub depth 1);
       if 1 <? depth
       then lin ← torch.linspace (Tensor.options path) 2 depth (Int64.sub depth 1);
            torch.div_ (Tensor.options path) ones lin
       else Ok ones) = Ok (misc.reciprocals spec).
Proof.
  intros Hrank Hd.
  destruct (SigSpec_new_ok path depth stream basepoint Hrank Hd)
    as (s0 & s1 & s2 & recips & H0 & H1 & H2 & _ & Hnew).
  eexists. split; [exact Hnew|]. cbn [misc.reciprocals].
  unfold misc.SigSpec_new in Hnew. rewrite H0, H1, H2 in Hnew.
  cbn [mbind result_bind] in Hnew.
  destruct (torch.ones _ _) as [ones|e]; cbn [mbind result_bind] in Hnew |- *;
    [|discriminate].
  destruct (if 1 <? depth then _ else _) as [r|e]; cbn [mbind result_bind] in Hnew;
    [|discriminate].
  injection Hnew as ->. reflexivity.
Qed.

(** Claim C2. For a path with a channel axis of length at least 1 and a depth of
    at least 1, the constructor of [SigSpec] sets [output_channels] to the
    sum of channels^i for i from 1 to depth, which is channels when depth
    is 1. *)
Theorem output_channels_sum path depth stream basepoint channels :
  3 <= Tensor.ndimension path →
  Tensor.size path 1 = Ok channels →
  1 <= channels →
  1 <= depth <= Int64.max_signed →
  ∃ spec, misc.SigSpec_new path depth stream basepoint = Ok spec
    ∧ misc.input_channels spec = channels
    ∧ misc.output_channels spec = Contract.sum_powers channels (Z.to_nat depth)
    ∧ (depth = 1 → misc.output_channels spec = channels).
Proof.
  intros Hrank Hc _ Hd.
  destruct (SigSpec_new_ok path depth stream basepoint Hrank Hd)
    as (s0 & s1 & s2 & recips & _ & H1 & _ & _ & Hnew).
  rewrite Hc in H1. injection H1 as <-.
  eexists. split; [exact Hnew|]. cbn [misc.input_channels misc.output_channels].
  rewrite signature_channels_sum. repeat split.
  intros ->. change (Z.to_nat 1) with 1%nat. cbn [Contract.sum_powers].
  change (Z.of_nat 1) with 1. rewrite Z.pow_1_r. lia.
Qed.

Lemma output_channels_sum_witness :
  ∃ spec, misc.SigSpec_new Scenario.path_internal 3 true false = Ok spec
    ∧ misc.input_channels spec = 3
    ∧ misc.output_channels spec = 39
    ∧ (3 = 1 → misc.output_channels spec = 3).
Proof.
  apply (output_channels_sum Scenario.path_internal 3 true false 3).
  - vm_compute. discriminate.
  - reflexivity.
  - lia.
  - split; [lia | vm_compute; discriminate].
Defined.

Lemma SigSpec_new_scenario :
  misc.SigSpec_new Scenario.path_internal 3 true false = Ok Scenario.sigspec.
Proof.
  vm_compute. do 2 f_equal.
  repeat (f_equal; try (apply Qc_is_canon; reflexivity)).
Qed.

(** The elements of [reciprocals] are rounded: on a single-precision path
    and at depth 3 the second one is 11184811 / 2^25, the [float] nearest
    to 1/3, and not 1/3. *)
Lemma reciprocals_not_exact :
  ∃ spec, misc.SigSpec_new Scenario.path_internal 3 true false = Ok spec
    ∧ misc.reciprocals spec !! 1%nat = Some (Q2Qc (11184811 # 33554432))
    ∧ misc.reciprocals spec !! 1%nat ≠ Some (1 / Qc_of_Z (Z.of_nat 1 + 2))%Qc.
Proof.
  exists Scenario.sigspec. split; [apply SigSpec_new_scenario|].
  split.
  - reflexivity.
  - cbn [Scenario.sigspec misc.reciprocals lookup list_lookup].
    intros H. apply (f_equal (fmap this)) in H. vm_compute in H. discriminate.
Qed.

(** Claim C6. For a depth of at least 1 and at most 2^p, where p is the
    precision of the dtype of the path (24 bits for float, 53 for double),
    the constructor of [SigSpec] gives [reciprocals] depth - 1 elements,
    the one at position k (from 0) being 1/(k+2) rounded to the nearest
    value of that dtype: the sequence 1/2, 1/3, ..., 1/depth as the dtype
    has them, which is empty when depth is 1. *)
Theorem reciprocals_sequence_rounded path depth stream basepoint :
  let f := Tensor.format_of (Tensor.dtype (Tensor.options path)) in
  3 <= Tensor.ndimension path →
  1 <= depth <= 2 ^ Float.prec f →
  ∃ spec, misc.SigSpec_new path depth stream basepoint = Ok spec
    ∧ length (misc.reciprocals spec) = Z.to_nat (depth - 1)
    ∧ (∀ k : nat, Z.of_nat k < depth - 1 →
         misc.reciprocals spec !! k
         = Some (Float.round f (1 / Qc_of_Z (Z.of_nat k + 2))%Qc))
    ∧ (depth = 1 → misc.reciprocals spec = []).
Proof.
  intros f Hrank Hd.
  destruct (format_of_bounds (Tensor.dtype (Tensor.options path))) as (_ & _ & Hmax).
  fold f in Hmax.
  destruct (SigSpec_new_reciprocals path depth stream basepoint Hrank ltac:(lia))
    as (spec & Hnew & Hrecips).
  rewrite (reciprocals_rounded (Tensor.options path) depth Hd) in Hrecips.
  injection Hrecips as Hrecips. fold f in Hrecips.
  exists spec. split; [exact Hnew|]. rewrite <- Hrecips. repeat split.
  - rewrite length_fmap, length_seq. reflexivity.
  - intros k Hk. rewrite list_lookup_fmap, lookup_seq_lt by lia. reflexivity.
  - intros ->. reflexivity.
Qed.

Lemma reciprocals_sequence_rounded_witness :
  ∃ spec, misc.SigSpec_new Scenario.path_internal 3 true false = Ok spec
    ∧ length (misc.reciprocals spec) = 2%nat
    ∧ (∀ k : nat, Z.of_nat k < 3 - 1 →
         misc.reciprocals spec !! k
         = Some (Float.round Float.binary32 (1 / Qc_of_Z (Z.of_nat k + 2))%Qc))
    ∧ (3 = 1 → misc.reciprocals spec = []).
Proof.
  apply (reciprocals_sequence_rounded Scenario.path_internal 3 true false).
  - vm_compute. discriminate.
  - split; [lia | vm_compute; discriminate].
Defined.

Lemma Ok_inj {A : Type} (a b : A) : Ok a = Ok b → a = b.
Proof. intros [= ->]. reflexivity. Qed.

(** Past 2^p the integers are no longer all values of the dtype, and the
    elements are not the rounded reciprocals any more: in single precision
    at depth 2^24 + 2 the point of [linspace] for 2^24 + 1 is 2^24, so the
    element at position 2^24 - 1 is 2^-24, while 1/(2^24 + 1) rounds to the
    value just below. *)
Lemma reciprocals_beyond_precision :
  ∃ spec, misc.SigSpec_new Scenario.path_internal 16777218 true false = Ok spec
    ∧ misc.reciprocals spec !! Z.to_nat 16777215 = Some (Float.pow2 (-24))
    ∧ Float.round Float.binary32 (1 / Qc_of_Z (16777215 + 2))%Qc ≠ Float.pow2 (-24).
Proof.
  assert (Hd : 1 <= 16777218 <= Int64.max_signed)
    by (split; [lia | vm_compute; discriminate]).
  assert (Hrank : 3 <= Tensor.ndimension Scenario.path_internal)
    by (vm_compute; discriminate).
  destruct (SigSpec_new_reciprocals Scenario.path_internal 16777218 true false
              Hrank Hd) as (spec & Hnew & Hrecips).
  rewrite (reciprocals_points (Tensor.options Scenario.path_internal) 16777218
             ltac:(lia)) in Hrecips.
  apply Ok_inj in Hrecips.
  exists spec. split; [exact Hnew|]. rewrite <- Hrecips. split.
  - rewrite list_lookup_fmap.
    rewrite lookup_seq_lt by (apply Z2Nat.inj_lt; lia).
    rewrite Nat.add_0_l.
    lazy beta delta [fmap option_fmap option_map] iota.
    rewrite Z2Nat.id by lia.
    apply (f_equal Some).
    qc_compute.
  - intros H. apply (f_equal this) in H. vm_compute in H. discriminate.
Qed.

(* ===================================================================== *)
(** ** Layout conversion *)
(* ===================================================================== *)

Ltac case_ranges :=
  repeat match goal with
    | |- context [if ?b then _ else _] => destruct b eqn:?; cbn [mbind option_bind]
    end.

(** Claim C4. For a tensor with the number of axes of the layout (three with
    stream, two without), [transpose] followed by [transpose_reverse] gives
    the view it started from. Both are views on the storage of their
    argument, so nothing is copied, and the element of the transposed view
    at an index in the external layout is the element of the argument at
    the corresponding index of the internal layout. *)
Theorem transpose_roundtrip x spec :
  Tensor.ndimension x = (if misc.stream spec then 3 else 2) →
  ∃ y, misc.transpose x spec = Ok y
    ∧ misc.transpose_reverse y spec = Ok x
    ∧ Tensor.storage y = Tensor.storage x
    ∧ Tensor.storage_offset y = Tensor.storage_offset x
    ∧ ∀ idx, Tensor.cell y (Contract.to_external (misc.stream spec) idx)
             = Tensor.cell x idx.
Proof.
  destruct x as [st off ax opt]. unfold Tensor.ndimension, misc.transpose,
    misc.transpose_reverse. cbn [Tensor.axes].
  destruct (misc.stream spec); intros Hrank.
  - destruct ax as [|a0 [|a1 [|a2 [|a3 l]]]]; cbn [length] in Hrank; try lia.
    exists {| Tensor.storage := st; Tensor.storage_offset := off;
              Tensor.axes := [a2; a0; a1]; Tensor.options := opt |}. split; [reflexivity|]. split; [reflexivity|].
    split; [reflexivity|]. split; [reflexivity|].
    intros idx. unfold Tensor.cell. cbn [Tensor.axes Tensor.storage Tensor.storage_offset].
    destruct idx as [|i0 [|i1 [|i2 [|i3 idx]]]];
      cbn [Contract.to_external Tensor.offset_of mbind option_bind];
      case_ranges; try reflexivity.
    do 2 f_equal. lia.
  - destruct ax as [|a0 [|a1 [|a2 l]]]; cbn [length] in Hrank; try lia.
    exists {| Tensor.storage := st; Tensor.storage_offset := off;
              Tensor.axes := [a1; a0]; Tensor.options := opt |}. split; [reflexivity|]. split; [reflexivity|].
    split; [reflexivity|]. split; [reflexivity|].
    intros idx. unfold Tensor.cell. cbn [Tensor.axes Tensor.storage Tensor.storage_offset].
    destruct idx as [|i0 [|i1 [|i2 idx]]];
      cbn [Contract.to_external Tensor.offset_of mbind option_bind];
      case_ranges; try reflexivity.
    do 2 f_equal. lia.
Qed.

Lemma transpose_roundtrip_witness :
  ∃ y, misc.transpose Scenario.path_internal Scenario.sigspec = Ok y
    ∧ misc.transpose_reverse y Scenario.sigspec = Ok Scenario.path_internal
    ∧ Tensor.storage y = 1%positive
    ∧ Tensor.storage_offset y = 0
    ∧ ∀ idx, Tensor.cell y (Contract.to_external true idx)
             = Tensor.cell Scenario.path_internal idx.
Proof.
  apply (transpose_roundtrip Scenario.path_internal Scenario.sigspec).
  reflexivity.
Defined.

Example transpose_scenario :
  misc.transpose Scenario.path_internal Scenario.sigspec = Ok Scenario.path.
Proof. reflexivity. Qed.

Example sigspec_scenario :
  misc.SigSpec_new Scenario.path_internal 3 true false = Ok Scenario.sigspec.
Proof. exact SigSpec_new_scenario. Qed.

(* ===================================================================== *)
(** ** Slicing by term *)
(* ===================================================================== *)

Section SumPowers.

Variable c : Z.
Hypothesis c_nonneg : 0 <= c.

Lemma pow_nonneg (n : nat) : 0 <= c ^ Z.of_nat n.
Proof. apply Z.pow_nonneg, c_nonneg. Qed.

Lemma sum_powers_nonneg (n : nat) : 0 <= Contract.sum_powers c n.
Proof.
  induction n as [|n IH]; cbn [Contract.sum_powers]; [lia|].
  pose proof (pow_nonneg (S n)). lia.
Qed.

Lemma sum_powers_mono (m n : nat) :
  (m <= n)%nat → Contract.sum_powers c m <= Contract.sum_powers c n.
Proof.
  induction 1 as [|n _ IH]; [lia|]. cbn [Contract.sum_powers].
  pose proof (pow_nonneg (S n)). lia.
Qed.

Lemma pow_le_sum_powers (m n : nat) :
  (m < n)%nat → c ^ Z.of_nat (S m) <= Contract.sum_powers c n.
Proof.
  intros Hmn. pose proof (sum_powers_mono (S m) n Hmn) as Hle.
  cbn [Contract.sum_powers] in Hle. pose proof (sum_powers_nonneg m). lia.
Qed.

End SumPowers.

Lemma reserve_ok n : 0 <= n <= vector_max_size → reserve n = Ok ().
Proof.
  intros Hn. unfold reserve.
  replace (n <? 0) with false by (symmetry; apply Z.ltb_ge; lia).
  replace (vector_max_size <? n) with false by (symmetry; apply Z.ltb_ge; lia).
  reflexivity.
Qed.

Lemma reserve_error n :
  n < 0 ∨ vector_max_size < n → reserve n = Throw length_error.
Proof.
  intros Hn. unfold reserve.
  destruct (Z.ltb_spec n 0) as [H0|H0]; [reflexivity|].
  replace (vector_max_size <? n) with true by (symmetry; apply Z.ltb_lt; lia).
  reflexivity.
Qed.

Lemma narrow_start_nonneg start n :
  0 <= start <= n → Tensor.narrow_start start n = Ok start.
Proof.
  intros Hs. unfold Tensor.narrow_start.
  destruct (Z.eqb_spec start n) as [E|E]; [reflexivity|].
  replace (n <=? 0) with false by (symmetry; apply Z.leb_gt; lia).
  replace (- n <=? start) with true by (symmetry; apply Z.leb_le; lia).
  replace (start <? n) with true by (symmetry; apply Z.ltb_lt; lia).
  replace (start <? 0) with false by (symmetry; apply Z.ltb_ge; lia).
  reflexivity.
Qed.

Lemma narrow_block x dim i a start len :
  Tensor.axis x dim = Ok (i, a) →
  0 <= start → 0 <= len → start + len <= Tensor.extent a →
  Tensor.narrow x dim start len = Ok (Contract.block x i a start len).
Proof.
  intros Hax Hs Hl Hfit. unfold Tensor.narrow. rewrite Hax. cbn [mbind result_bind].
  rewrite narrow_start_nonneg by lia. cbn [mbind result_bind].
  replace (0 <=? len) with true by (symmetry; apply Z.leb_le; lia).
  replace (start <=? Tensor.extent a - len) with true by (symmetry; apply Z.leb_le; lia).
  reflexivity.
Qed.

Section SliceByTerm.

Variables (in_ : Tensor.t) (dim : Z) (i : nat) (a : Tensor.Axis) (c : Z).
Hypothesis in_axis : Tensor.axis in_ dim = Ok (i, a).
Hypothesis c_nonneg : 0 <= c.
Hypothesis extent_int64 : Tensor.extent a <= Int64.max_signed.

Lemma slice_by_term_loop_blocks (n k : nat) (pos len : Z) (out : list Tensor.t) :
  Contract.sum_powers c (k + n) <= Tensor.extent a →
  pos = Contract.sum_powers c k →
  ((0 < n)%nat → len = c ^ Z.of_nat (S k)) →
  misc.slice_by_term_loop n in_ dim c pos len out
  = Ok (out ++ (Contract.term in_ i a c <$> seq k n)).
Proof.
  revert k pos len out. induction n as [|n IH]; intros k pos len out Hfit -> Hlen.
  - cbn. rewrite app_nil_r. reflexivity.
  - rewrite Hlen by lia. cbn [misc.slice_by_term_loop].
    pose proof (sum_powers_nonneg c c_nonneg k) as Hk.
    pose proof (pow_nonneg c c_nonneg (S k)) as Hp.
    pose proof (sum_powers_mono c c_nonneg (S k) (k + S n) ltac:(lia)) as Hm.
    cbn [Contract.sum_powers] in Hm.
    rewrite (narrow_block _ _ _ _ _ _ in_axis) by lia. cbn [mbind result_bind].
    rewrite (IH (S k)).
    + rewrite <- app_assoc. reflexivity.
    + replace (S k + n)%nat with (k + S n)%nat by lia. exact Hfit.
    + unfold Int64.add. rewrite wrap_in_range by (apply in_range_nonneg; lia).
      reflexivity.
    + intros Hn. unfold Int64.mul.
      pose proof (pow_le_sum_powers c c_nonneg (S k) (k + S n) ltac:(lia)) as Hq.
      replace (c ^ Z.of_nat (S k) * c) with (c ^ Z.of_nat (S (S k)))
        by (rewrite (Nat2Z.inj_succ (S k)), Z.pow_succ_r by lia; lia).
      pose proof (pow_nonneg c c_nonneg (S (S k))).
      apply wrap_in_range, in_range_nonneg. lia.
Qed.

Lemma offset_of_short (ax : list Tensor.Axis) (idx : list Z) (m : nat) :
  is_Some (ax !! m) → idx !! m = None → Tensor.offset_of ax idx = None.
Proof.
  revert idx m. induction ax as [|b ax IH]; intros idx m [b' Hb] Hidx.
  - discriminate.
  - destruct idx as [|j idx]; [reflexivity|]. destruct m as [|m]; [discriminate|].
    cbn [Tensor.offset_of]. rewrite (IH idx m) by eauto.
    destruct (_ && _); reflexivity.
Qed.

Lemma offset_of_out_of_range (ax : list Tensor.Axis) (idx : list Z) (m : nat) b j :
  ax !! m = Some b → idx !! m = Some j → ¬ (0 <= j < Tensor.extent b) →
  Tensor.offset_of ax idx = None.
Proof.
  revert idx m. induction ax as [|b' ax IH]; intros idx m Hb Hj Hout; [discriminate|].
  destruct idx as [|j' idx]; [reflexivity|]. cbn [Tensor.offset_of].
  destruct m as [|m].
  - injection Hb as ->. injection Hj as ->.
    destruct (Z.leb_spec 0 j), (Z.ltb_spec j (Tensor.extent b)); (reflexivity || lia).
  - rewrite (IH idx m Hb Hj Hout). destruct (_ && _); reflexivity.
Qed.

(** Reading a block at [j] is reading the buffer at [start + j]. *)
Lemma offset_of_block (ax : list Tensor.Axis) (idx : list Z) (m : nat) b start len j :
  ax !! m = Some b → idx !! m = Some j →
  0 <= start → start + len <= Tensor.extent b → 0 <= j < len →
  Tensor.offset_of ax (<[m := start + j]> idx)
  = (fun r => start * Tensor.stride b + r)
      <$> Tensor.offset_of
            (<[m := {| Tensor.extent := len; Tensor.stride := Tensor.stride b |}]> ax)
            idx.
Proof.
  revert idx m. induction ax as [|b' ax IH]; intros idx m Hb Hj Hs Hfit Hin;
    [discriminate|].
  destruct idx as [|j' idx]; [discriminate|]. destruct m as [|m].
  - injection Hb as ->. injection Hj as ->.
    cbn [insert list_insert Tensor.offset_of Tensor.extent Tensor.stride].
    replace ((0 <=? start + j) && (start + j <? Tensor.extent b)) with true
      by (symmetry; apply andb_true_iff; split; [apply Z.leb_le | apply Z.ltb_lt]; lia).
    replace ((0 <=? j) && (j <? len)) with true
      by (symmetry; apply andb_true_iff; split; [apply Z.leb_le | apply Z.ltb_lt]; lia).
    destruct (Tensor.offset_of ax idx); cbn; [f_equal; lia | reflexivity].
  - change (<[S m := ?v]> (?y :: ?l)) with (y :: <[m := v]> l).
    cbn [Tensor.offset_of].
    rewrite (IH idx m Hb Hj Hs Hfit Hin).
    destruct (_ && _); [|reflexivity].
    destruct (Tensor.offset_of _ idx); cbn; [f_equal; lia | reflexivity].
Qed.

Lemma cell_term (k : nat) (idx : list Z) (j : Z) :
  idx !! i = Some j → 0 <= j < c ^ Z.of_nat (S k) →
  Contract.sum_powers c (S k) <= Tensor.extent a →
  Tensor.cell (Contract.term in_ i a c k) idx
  = Tensor.cell in_ (<[i := Contract.sum_powers c k + j]> idx).
Proof.
  intros Hj Hin Hfit. pose proof (axis_inv _ _ _ _ in_axis) as Ha.
  pose proof (sum_powers_nonneg c c_nonneg k) as Hk.
  cbn [Contract.sum_powers] in Hfit.
  unfold Tensor.cell, Contract.term, Contract.block.
  cbn [Tensor.axes Tensor.storage Tensor.storage_offset].
  rewrite (offset_of_block _ _ _ _ _ (c ^ Z.of_nat (S k)) _ Ha Hj) by lia.
  destruct (Tensor.offset_of _ idx); cbn; [do 2 f_equal; lia | reflexivity].
Qed.

(** The terms from degree [k + 1] on, laid one after the other, are the
    part of the axis that starts at the sum of the lengths before. *)
Lemma cat_cell_terms (n k : nat) (idx : list Z) (j : Z) :
  Contract.sum_powers c (k + n) = Tensor.extent a →
  idx !! i = Some j → 0 <= j →
  Tensor.cat_cell (Contract.term in_ i a c <$> seq k n) i idx
  = Tensor.cell in_ (<[i := Contract.sum_powers c k + j]> idx).
Proof.
  pose proof (axis_inv _ _ _ _ in_axis) as Ha.
  assert (Hi : (i < length (Tensor.axes in_))%nat) by (eapply lookup_lt_Some, Ha).
  revert k idx j. induction n as [|n IH]; intros k idx j Hsum Hj Hpos.
  - cbn. symmetry. unfold Tensor.cell.
    rewrite (offset_of_out_of_range _ _ i a (Contract.sum_powers c k + j) Ha);
      [reflexivity | | ].
    + apply list_lookup_insert_eq. eapply lookup_lt_Some, Hj.
    + rewrite Nat.add_0_r in Hsum. lia.
  - cbn [seq fmap list_fmap Tensor.cat_cell].
    change (list_fmap _ _ ?f ?l) with (f <$> l).
    unfold Contract.term at 1, Contract.block at 1. cbn [Tensor.axes].
    rewrite list_lookup_insert_eq by exact Hi. rewrite Hj. cbn [Tensor.extent].
    pose proof (sum_powers_mono c c_nonneg (S k) (k + S n) ltac:(lia)) as Hm.
    destruct (Z.ltb_spec j (c ^ Z.of_nat (S k))) as [Hlt|Hge].
    + apply cell_term; [exact Hj | lia | lia].
    + rewrite (IH (S k) _ (j - c ^ Z.of_nat (S k))).
      * rewrite list_insert_insert_eq. cbn [Contract.sum_powers]. do 2 f_equal. lia.
      * replace (S k + n)%nat with (k + S n)%nat by lia. exact Hsum.
      * apply list_lookup_insert_eq. eapply lookup_lt_Some, Hj.
      * lia.
Qed.

End SliceByTerm.

(** Claim C1. Let axis [dim] of the buffer have as length the sum of channels^i
    for i from 1 to depth (channels, a tensor size, is not negative, and
    depth is a number of views a vector can hold, at most 2^60 - 1).
    [slice_by_term] then returns depth views. The k-th one (from 0) is the
    view of the buffer on the block of length channels^(k+1) that starts
    where the blocks of lower degree end: it has the storage of the buffer,
    the sizes of the buffer but for that length, and its element at
    position j of the axis is the element of the buffer at position
    (channels + ... + channels^k) + j. The views laid one after the other
    along the axis give back every element of the buffer at its index. *)
Theorem slice_by_term_blocks in_ out dim spec i a :
  let c := misc.input_channels spec in
  Tensor.axis in_ dim = Ok (i, a) →
  0 <= c →
  0 <= misc.depth spec <= vector_max_size →
  Tensor.extent a = Contract.sum_powers c (Z.to_nat (misc.depth spec)) →
  Tensor.extent a <= Int64.max_signed →
  ∃ views, misc.slice_by_term in_ out dim spec = Ok views
    ∧ Z.of_nat (length views) = misc.depth spec
    ∧ (∀ (k : nat) v, views !! k = Some v →
         v = Contract.block in_ i a (Contract.sum_powers c k) (c ^ Z.of_nat (S k))
         ∧ Tensor.storage v = Tensor.storage in_
         ∧ Tensor.sizes v = <[i := c ^ Z.of_nat (S k)]> (Tensor.sizes in_)
         ∧ ∀ idx j, idx !! i = Some j → 0 <= j < c ^ Z.of_nat (S k) →
             Tensor.cell v idx
             = Tensor.cell in_ (<[i := Contract.sum_powers c k + j]> idx))
    ∧ (∀ idx, Tensor.cat_cell views i idx = Tensor.cell in_ idx).
Proof.
  intros c Hax Hc Hd Hsum Hmax.
  pose proof (axis_inv _ _ _ _ Hax) as Ha.
  set (n := Z.to_nat (misc.depth spec)) in *.
  exists (Contract.term in_ i a c <$> seq 0 n). split; [|split; [|split]].
  - unfold misc.slice_by_term. rewrite reserve_ok by exact Hd. fold c. fold n.
    cbn [mbind result_bind].
    rewrite (slice_by_term_loop_blocks in_ dim i a c Hax Hc Hmax n 0);
      [reflexivity | cbn [Nat.add]; lia | reflexivity | ].
    intros _. change (Z.of_nat 1) with 1. lia.
  - rewrite length_fmap, length_seq. subst n. lia.
  - intros k v Hv. rewrite list_lookup_fmap in Hv.
    destruct (seq 0 n !! k) as [k'|] eqn:Hk; [|discriminate].
    apply lookup_seq in Hk as [-> Hk]. cbn in Hv. injection Hv as <-.
    split; [reflexivity|]. split; [reflexivity|]. split.
    + unfold Tensor.sizes, Contract.term, Contract.block. cbn [Tensor.axes].
      rewrite list_fmap_insert. reflexivity.
    + intros idx j Hj Hin. apply (cell_term in_ dim i a c Hax Hc); [exact Hj | exact Hin |].
      rewrite Hsum. apply sum_powers_mono; [exact Hc | lia].
  - intros idx. destruct (idx !! i) as [j|] eqn:Hj.
    + destruct (Z.le_gt_cases 0 j) as [Hpos|Hneg].
      * rewrite (cat_cell_terms in_ dim i a c Hax Hc n 0 idx j); [| cbn; lia | exact Hj | exact Hpos].
        cbn [Contract.sum_powers]. rewrite Z.add_0_l, list_insert_id by exact Hj.
        reflexivity.
      * transitivity (@None (positive * Z)); [|symmetry].
        -- destruct n as [|n']; [reflexivity|].
           cbn [seq fmap list_fmap Tensor.cat_cell].
           unfold Contract.term at 1, Contract.block at 1. cbn [Tensor.axes].
           rewrite list_lookup_insert_eq by (eapply lookup_lt_Some, Ha).
           rewrite Hj. cbn [Tensor.extent].
           pose proof (pow_nonneg c Hc 1).
           replace (j <? c ^ Z.of_nat 1) with true by (symmetry; apply Z.ltb_lt; lia).
           unfold Tensor.cell.
           erewrite offset_of_out_of_range; [reflexivity | | exact Hj | ].
           ++ cbn [Tensor.axes]. apply list_lookup_insert_eq. eapply lookup_lt_Some, Ha.
           ++ cbn [Tensor.extent]. lia.
        -- unfold Tensor.cell.
           rewrite (offset_of_out_of_range _ _ i a j Ha Hj) by lia. reflexivity.
    + transitivity (@None (positive * Z)); [|symmetry].
      * destruct n as [|n']; [reflexivity|].
        cbn [seq fmap list_fmap Tensor.cat_cell].
        unfold Contract.term at 1, Contract.block at 1. cbn [Tensor.axes].
        rewrite list_lookup_insert_eq by (eapply lookup_lt_Some, Ha).
        rewrite Hj. reflexivity.
      * unfold Tensor.cell. rewrite (offset_of_short _ _ i) by eauto. reflexivity.
Qed.

Lemma slice_by_term_blocks_witness :
  ∃ views, misc.slice_by_term Scenario.signature [] 1 Scenario.sigspec = Ok views
    ∧ Z.of_nat (length views) = 3
    ∧ (∀ (k : nat) v, views !! k = Some v →
         v = Contract.block Scenario.signature 1
               {| Tensor.extent := 39; Tensor.stride := 2 |}
               (Contract.sum_powers 3 k) (3 ^ Z.of_nat (S k))
         ∧ Tensor.storage v = 3%positive
         ∧ Tensor.sizes v = <[1%nat := 3 ^ Z.of_nat (S k)]> [4; 39; 2]
         ∧ ∀ idx j, idx !! 1%nat = Some j → 0 <= j < 3 ^ Z.of_nat (S k) →
             Tensor.cell v idx
             = Tensor.cell Scenario.signature
                 (<[1%nat := Contract.sum_powers 3 k + j]> idx))
    ∧ (∀ idx, Tensor.cat_cell views 1 idx = Tensor.cell Scenario.signature idx).
Proof.
  apply (slice_by_term_blocks Scenario.signature [] 1 Scenario.sigspec 1
           {| Tensor.extent := 39; Tensor.stride := 2 |}).
  - reflexivity.
  - cbn. lia.
  - split; [cbn; lia | vm_compute; discriminate].
  - reflexivity.
  - vm_compute. discriminate.
Defined.

Example slice_by_term_scenario :
  match misc.slice_by_term Scenario.signature [] 1 Scenario.sigspec with
  | Ok views => Tensor.sizes <$> views
  | Throw _ => []
  end
  = [[4; 3; 2]; [4; 9; 2]; [4; 27; 2]].
Proof. reflexivity. Qed.

(* ===================================================================== *)
(** ** Slicing at a position of the sequence axis *)
(* ===================================================================== *)

Lemma select_position x a0 rest index :
  Tensor.axes x = a0 :: rest →
  0 <= index < Tensor.extent a0 →
  (narrowed ← Tensor.narrow x 0 index 1; Tensor.squeeze narrowed 0)
  = Ok (Contract.at_position x a0 index).
Proof.
  intros Hax Hin.
  rewrite (narrow_block x 0 0 a0) by (try apply axis_at; rewrite ?Hax; done || lia).
  cbn [mbind result_bind]. unfold Tensor.squeeze.
  rewrite (axis_at _ 0 {| Tensor.extent := 1; Tensor.stride := Tensor.stride a0 |})
    by (unfold Contract.block; cbn [Tensor.axes]; rewrite ?Hax; done).
  unfold Contract.at_position, Contract.block. cbn [Tensor.axes].
  rewrite Hax. reflexivity.
Qed.

Lemma slice_at_stream_loop_app l1 l2 index out :
  misc.slice_at_stream_loop (l1 ++ l2) index out
  = (out1 ← misc.slice_at_stream_loop l1 index out;
     misc.slice_at_stream_loop l2 index out1).
Proof.
  revert out. induction l1 as [|x l1 IH]; intros out; [reflexivity|].
  cbn [app misc.slice_at_stream_loop].
  destruct (Tensor.narrow x 0 index 1) as [v|e]; cbn [mbind result_bind]; [|reflexivity].
  destruct (Tensor.squeeze v 0) as [w|e]; cbn [mbind result_bind]; [|reflexivity].
  apply IH.
Qed.

Section SliceAtStream.

Variables (in_ : Tensor.t) (a0 : Tensor.Axis) (rest : list Tensor.Axis).
Variables (dim stream_index : Z).
Hypothesis in_axes : Tensor.axes in_ = a0 :: rest.
Hypothesis dim_inner : 1 <= dim < Tensor.ndimension in_.
Hypothesis index_valid : 0 <= stream_index < Tensor.extent a0.

(** Narrowing an inner axis and taking a position of the first axis can
    be done in either order. *)
Lemma narrow_at_position pos len :
  match Tensor.narrow in_ dim pos len with
  | Ok v =>
      (∃ rest', Tensor.axes v = a0 :: rest')
      ∧ Tensor.narrow (Contract.at_position in_ a0 stream_index) (dim - 1) pos len
        = Ok (Contract.at_position v a0 stream_index)
  | Throw e =>
      Tensor.narrow (Contract.at_position in_ a0 stream_index) (dim - 1) pos len
      = Throw e
  end.
Proof.
  unfold Tensor.ndimension in dim_inner. rewrite in_axes in dim_inner.
  cbn [length] in dim_inner.
  destruct (Z.to_nat dim) as [|m] eqn:Hm; [lia|].
  assert (Hm' : Z.to_nat (dim - 1) = m) by lia.
  destruct (rest !! m) as [a|] eqn:Ha;
    [| apply lookup_ge_None in Ha; lia].
  unfold Tensor.narrow.
  rewrite (axis_at in_ dim a) by (rewrite ?Hm, ?in_axes; done || lia).
  rewrite (axis_at (Contract.at_position in_ a0 stream_index) (dim - 1) a)
    by (unfold Contract.at_position; cbn [Tensor.axes];
        rewrite ?Hm', ?in_axes; done || lia).
  rewrite Hm, Hm'. cbn [mbind result_bind].
  destruct (Tensor.narrow_start pos (Tensor.extent a)) as [start|e];
    cbn [mbind result_bind]; [|reflexivity].
  destruct (_ && _); [|reflexivity].
  cbn [Tensor.axes]. rewrite in_axes. split; [eexists; reflexivity|].
  unfold Contract.at_position. cbn. rewrite in_axes. cbn. do 2 f_equal. lia.
Qed.

Lemma slice_loops_commute c (n : nat) pos len acc acc' :
  misc.slice_at_stream_loop acc stream_index [] = Ok acc' →
  (views ← misc.slice_by_term_loop n in_ dim c pos len acc;
   misc.slice_at_stream_loop views stream_index [])
  = misc.slice_by_term_loop n (Contract.at_position in_ a0 stream_index)
      (dim - 1) c pos len acc'.
Proof.
  revert pos len acc acc'. induction n as [|n IH]; intros pos len acc acc' Hacc.
  - exact Hacc.
  - cbn [misc.slice_by_term_loop].
    pose proof (narrow_at_position pos len) as Hstep.
    destruct (Tensor.narrow in_ dim pos len) as [v|e].
    + destruct Hstep as [[rest' Hv] ->]. cbn [mbind result_bind].
      apply IH. rewrite slice_at_stream_loop_app, Hacc. cbn [mbind result_bind].
      cbn [misc.slice_at_stream_loop].
      pose proof (select_position v a0 rest' stream_index Hv index_valid) as Hsel.
      destruct (Tensor.narrow v 0 stream_index 1) as [w|e];
        cbn [mbind result_bind] in Hsel |- *; [|discriminate].
      rewrite Hsel. reflexivity.
    + rewrite Hstep. reflexivity.
Qed.

Lemma slice_at_stream_loop_positions views acc :
  Forall (fun v => ∃ rest', Tensor.axes v = a0 :: rest') views →
  misc.slice_at_stream_loop views stream_index acc
  = Ok (acc ++ ((fun v => Contract.at_position v a0 stream_index) <$> views)).
Proof.
  intros Hviews. revert acc.
  induction Hviews as [|v views [rest' Hv] _ IH]; intros acc.
  - cbn. rewrite app_nil_r. reflexivity.
  - cbn [misc.slice_at_stream_loop fmap list_fmap].
    pose proof (select_position v a0 rest' stream_index Hv index_valid) as Hsel.
    destruct (Tensor.narrow v 0 stream_index 1) as [w|e];
      cbn [mbind result_bind] in Hsel |- *; [|discriminate].
    rewrite Hsel. cbn [mbind result_bind]. rewrite IH, <- app_assoc. reflexivity.
Qed.

Lemma slice_by_term_loop_first_axis c (n : nat) pos len acc views :
  Forall (fun v => ∃ rest', Tensor.axes v = a0 :: rest') acc →
  misc.slice_by_term_loop n in_ dim c pos len acc = Ok views →
  Forall (fun v => ∃ rest', Tensor.axes v = a0 :: rest') views.
Proof.
  revert pos len acc. induction n as [|n IH]; intros pos len acc Hacc Hloop.
  - injection Hloop as <-. exact Hacc.
  - cbn [misc.slice_by_term_loop] in Hloop.
    pose proof (narrow_at_position pos len) as Hstep.
    destruct (Tensor.narrow in_ dim pos len) as [v|e];
      cbn [mbind result_bind] in Hloop; [|discriminate].
    apply (IH _ _ _ ltac:(apply Forall_app; split; [exact Hacc|];
                          apply Forall_cons; split; [apply Hstep | apply Forall_nil_2])
              Hloop).
Qed.

End SliceAtStream.

(** Claim C7. Let the buffer have the sequence axis first, let [dim] be another of
    its axes and [stream_index] a position of the sequence axis. The row of
    the buffer at that position, with the sequence axis removed, is a view.
    [slice_by_term] on the buffer followed by [slice_at_stream] at that
    position gives the same outcome as [slice_by_term] on that row: the same
    views, degree by degree, or the same exception. And whenever
    [slice_by_term] returns views, [slice_at_stream] returns, for each of
    them in order, its row at that position with the sequence axis
    removed. *)
Theorem slice_at_stream_commutes in_ out out' out'' dim spec stream_index a0 :
  Tensor.axis in_ 0 = Ok (0%nat, a0) →
  1 <= dim < Tensor.ndimension in_ →
  0 <= stream_index < Tensor.extent a0 →
  let row := Contract.at_position in_ a0 stream_index in
  (narrowed ← Tensor.narrow in_ 0 stream_index 1; Tensor.squeeze narrowed 0) = Ok row
  ∧ (views ← misc.slice_by_term in_ out dim spec;
     misc.slice_at_stream views out' stream_index)
    = misc.slice_by_term row out'' (dim - 1) spec
  ∧ ∀ views, misc.slice_by_term in_ out dim spec = Ok views →
      misc.slice_at_stream views out' stream_index
      = Ok ((fun v => Contract.at_position v a0 stream_index) <$> views).
Proof.
  intros Hfirst Hdim Hidx row. apply axis_inv in Hfirst.
  destruct (Tensor.axes in_) as [|a0' rest] eqn:Hax; [discriminate|].
  injection Hfirst as ->. split; [|split].
  - apply (select_position in_ a0 rest); assumption.
  - unfold misc.slice_by_term, misc.slice_at_stream.
    destruct (reserve (misc.depth spec)) as [[]|e]; cbn [mbind result_bind];
      [|reflexivity].
    apply (slice_loops_commute in_ a0 rest dim stream_index Hax Hdim Hidx).
    reflexivity.
  - intros views Hviews. unfold misc.slice_by_term in Hviews.
    destruct (reserve (misc.depth spec)) as [[]|e]; cbn [mbind result_bind] in Hviews;
      [|discriminate].
    apply (slice_by_term_loop_first_axis in_ a0 rest dim stream_index Hax Hdim) in Hviews;
      [|apply Forall_nil_2].
    unfold misc.slice_at_stream.
    rewrite (slice_at_stream_loop_positions a0 stream_index Hidx _ _ Hviews).
    reflexivity.
Qed.

Lemma slice_at_stream_commutes_witness :
  let a0 := {| Tensor.extent := 4; Tensor.stride := 78 |} in
  let row := Contract.at_position Scenario.signature a0 2 in
  (narrowed ← Tensor.narrow Scenario.signature 0 2 1; Tensor.squeeze narrowed 0) = Ok row
  ∧ (views ← misc.slice_by_term Scenario.signature [] 1 Scenario.sigspec;
     misc.slice_at_stream views [] 2)
    = misc.slice_by_term row [] (1 - 1) Scenario.sigspec
  ∧ ∀ views, misc.slice_by_term Scenario.signature [] 1 Scenario.sigspec = Ok views →
      misc.slice_at_stream views [] 2
      = Ok ((fun v => Contract.at_position v a0 2) <$> views).
Proof.
  apply (slice_at_stream_commutes Scenario.signature [] [] [] 1 Scenario.sigspec 2
           {| Tensor.extent := 4; Tensor.stride := 78 |}).
  - reflexivity.
  - split; [lia | reflexivity].
  - cbn. lia.
Defined.

Example slice_at_stream_scenario :
  (views ← misc.slice_by_term Scenario.signature [] 1 Scenario.sigspec;
   misc.slice_at_stream views [] 2)
  = Ok [ {| Tensor.storage := 3; Tensor.storage_offset := 156;
            Tensor.axes := [ {| Tensor.extent := 3; Tensor.stride := 2 |};
                             {| Tensor.extent := 2; Tensor.stride := 1 |} ];
            Tensor.options := Scenario.float_cpu |};
         {| Tensor.storage := 3; Tensor.storage_offset := 162;
            Tensor.axes := [ {| Tensor.extent := 9; Tensor.stride := 2 |};
                             {| Tensor.extent := 2; Tensor.stride := 1 |} ];
            Tensor.options := Scenario.float_cpu |};
         {| Tensor.storage := 3; Tensor.storage_offset := 180;
            Tensor.axes := [ {| Tensor.extent := 27; Tensor.stride := 2 |};
                             {| Tensor.extent := 2; Tensor.stride := 1 |} ];
            Tensor.options := Scenario.float_cpu |} ].
Proof. reflexivity. Qed.

(* ===================================================================== *)
(** ** The capsule of the backward pass *)
(* ===================================================================== *)

Lemma fresh_address_free (h : gmap positive misc.BackwardsInfo) :
  h !! fresh (dom h) = None.
Proof. apply not_elem_of_dom, is_fresh. Qed.

(** Claim C8. [make_backwards_info] puts a new object in the free store, at an
    address that was free, and returns a capsule; [get_backwards_info] on
    that capsule returns that address, and the object there has the [out],
    [out_vector], [path_increments] and [sigspec] that were passed in. A
    call of [set_logsignature_data] on it then sets [signature_vector],
    [transforms], [mode] and [logsignature_channels] to its arguments and
    leaves the four other members, and every other object of the free
    store, as they were. *)
Theorem make_get_roundtrip out_vector out path_increments sigspec h err :
  ∃ capsule p info,
    misc.make_backwards_info out_vector out path_increments sigspec h err
    = (Some capsule, <[p := info]> h, err)
    ∧ h !! p = None
    ∧ misc.get_backwards_info capsule err = (Some p, err)
    ∧ misc.out info = out
    ∧ misc.out_vector info = out_vector
    ∧ misc.path_increments info = path_increments
    ∧ misc.sigspec info = sigspec
    ∧ ∀ signature_vector transforms mode logsignature_channels,
        ∃ info',
          misc.set_logsignature_data_at p signature_vector transforms mode
            logsignature_channels (<[p := info]> h)
          = <[p := info']> h
          ∧ misc.signature_vector info' = signature_vector
          ∧ misc.transforms info' = transforms
          ∧ misc.mode info' = Some mode
          ∧ misc.logsignature_channels info' = Some logsignature_channels
          ∧ misc.out info' = misc.out info
          ∧ misc.out_vector info' = misc.out_vector info
          ∧ misc.path_increments info' = misc.path_increments info
          ∧ misc.sigspec info' = misc.sigspec info.
Proof.
  exists (Python.PyCapsule (fresh (dom h)) (Some misc.detail.backwards_info_capsule_name)
            (Some Python.BackwardsInfoCapsuleDestructor_fn)),
    (fresh (dom h)), (misc.BackwardsInfo_new sigspec out_vector out path_increments).
  split; [reflexivity|]. split; [apply fresh_address_free|].
  split; [reflexivity|]. do 4 (split; [reflexivity|]).
  intros sv tr m lc. eexists. split.
  - unfold misc.set_logsignature_data_at. rewrite alter_insert_eq. reflexivity.
  - repeat split.
Qed.

Example get_after_make :
  let '(capsule, h, err) :=
    misc.make_backwards_info [] Scenario.grad Scenario.path_internal
      Scenario.sigspec ∅ None in
  ((fun c => misc.get_backwards_info c err) <$> capsule, misc.out <$> h !! 1%positive)
  = (Some (Some 1%positive, None), Some Scenario.grad).
Proof. vm_compute. reflexivity. Qed.

(** Claim C9. [get_backwards_info] returns the address in the capsule, and leaves
    the error indicator as it was, when the handle is a capsule with the
    name of the [BackwardsInfo] capsules. On any other handle it returns
    NULL, never an address, and sets the error indicator to a
    [ValueError]; it tries nothing else. *)
Theorem get_backwards_info_checks_tag handle err :
  if Contract.has_tag handle
  then ∃ p name destructor,
         handle = Python.PyCapsule p name destructor
         ∧ misc.get_backwards_info handle err = (Some p, err)
  else ∃ msg, misc.get_backwards_info handle err = (None, Some (Python.ValueError msg)).
Proof.
  unfold Contract.has_tag, misc.get_backwards_info, Python.PyCapsule_GetPointer,
    misc.detail.backwards_info_capsule_name.
  destruct handle as [p [name|] d|]; [| cbn; eauto | eauto].
  - destruct (String.eqb_spec name "signatory.BackwardsInfoCapsule") as [->|Hne].
    + rewrite decide_True by reflexivity. eauto.
    + rewrite decide_False by congruence. eauto.
Qed.

Example get_wrong_tag :
  misc.get_backwards_info (Python.PyCapsule 1 (Some "signatory.Other") None) None
  = (None, Some (Python.ValueError "PyCapsule_GetPointer called with incorrect name")).
Proof. reflexivity. Qed.

(** Property X13. Releasing the capsule made by [make_backwards_info]
    frees the object and leaves the free store, and the error indicator, as
    they were before the capsule was made. *)
Lemma destructor_frees out_vector out path_increments sigspec h err capsule h' err' :
  misc.make_backwards_info out_vector out path_increments sigspec h err
  = (Some capsule, h', err') →
  misc.detail.BackwardsInfoCapsuleDestructor capsule h' err' = (h, err).
Proof.
  intros [= <- <- <-].
  unfold misc.detail.BackwardsInfoCapsuleDestructor, Python.PyCapsule_GetPointer.
  rewrite decide_True by reflexivity.
  rewrite delete_insert_id by apply fresh_address_free. reflexivity.
Qed.

(* ===================================================================== *)
(** ** Further properties of the slicers *)
(* ===================================================================== *)

Lemma narrow_too_long x dim i a start len :
  Tensor.axis x dim = Ok (i, a) →
  0 <= start <= Tensor.extent a → Tensor.extent a < start + len →
  Tensor.narrow x dim start len = Throw c10_Error.
Proof.
  intros Hax Hs Hlong. unfold Tensor.narrow. rewrite Hax. cbn [mbind result_bind].
  rewrite narrow_start_nonneg by lia. cbn [mbind result_bind].
  replace (start <=? Tensor.extent a - len) with false by (symmetry; apply Z.leb_gt; lia).
  rewrite andb_false_r. reflexivity.
Qed.

Section SliceByTermShort.

Variables (in_ : Tensor.t) (dim : Z) (i : nat) (a : Tensor.Axis) (c : Z).
Hypothesis in_axis : Tensor.axis in_ dim = Ok (i, a).
Hypothesis c_nonneg : 0 <= c.

(** When the blocks do not all fit in the axis, the loop throws at the
    first one that does not. *)
Lemma slice_by_term_loop_short (n k : nat) (pos len : Z) (acc : list Tensor.t) :
  Contract.sum_powers c k <= Tensor.extent a < Contract.sum_powers c (k + n) →
  Contract.sum_powers c (k + n) <= Int64.max_signed →
  pos = Contract.sum_powers c k →
  len = c ^ Z.of_nat (S k) →
  misc.slice_by_term_loop n in_ dim c pos len acc = Throw c10_Error.
Proof.
  revert k pos len acc. induction n as [|n IH]; intros k pos len acc Hk Hmax -> ->.
  - rewrite Nat.add_0_r in Hk. lia.
  - cbn [misc.slice_by_term_loop].
    pose proof (sum_powers_nonneg c c_nonneg k) as Hk0.
    pose proof (pow_nonneg c c_nonneg (S k)) as Hp.
    destruct (Z.le_gt_cases (Contract.sum_powers c (S k)) (Tensor.extent a))
      as [Hfit|Hshort]; [cbn [Contract.sum_powers] in Hfit | cbn [Contract.sum_powers] in Hshort].
    + rewrite (narrow_block _ _ _ _ _ _ in_axis) by lia. cbn [mbind result_bind].
      assert (Hn : (0 < n)%nat).
      { destruct n; [|lia]. rewrite Nat.add_1_r in Hk. cbn [Contract.sum_powers] in Hk. lia. }
      apply (IH (S k)).
      * replace (S k + n)%nat with (k + S n)%nat by lia.
        cbn [Contract.sum_powers]. lia.
      * replace (S k + n)%nat with (k + S n)%nat by lia. exact Hmax.
      * unfold Int64.add. rewrite wrap_in_range by (apply in_range_nonneg; lia).
        reflexivity.
      * unfold Int64.mul.
        pose proof (pow_le_sum_powers c c_nonneg (S k) (k + S n) ltac:(lia)) as Hq.
        replace (c ^ Z.of_nat (S k) * c) with (c ^ Z.of_nat (S (S k)))
          by (rewrite (Nat2Z.inj_succ (S k)), Z.pow_succ_r by lia; lia).
        pose proof (pow_nonneg c c_nonneg (S (S k))).
        apply wrap_in_range, in_range_nonneg. lia.
    + rewrite (narrow_too_long _ _ _ _ _ _ in_axis) by lia. reflexivity.
Qed.

End SliceByTermShort.

(** Property X1. [slice_by_term] does not ask the axis to have exactly the
    length channels + ... + channels^depth: when that sum fits a 64-bit
    integer and depth is a number of views a vector can hold (at most
    2^60 - 1), the call returns the depth blocks as soon as the axis is at
    least that long, whatever follows them in the axis being left out, and
    it throws the tensor library's error when the axis is shorter. *)
Theorem slice_by_term_outcome in_ out dim spec i a :
  let c := misc.input_channels spec in
  let n := Z.to_nat (misc.depth spec) in
  Tensor.axis in_ dim = Ok (i, a) →
  0 <= c →
  0 <= misc.depth spec <= vector_max_size →
  0 <= Tensor.extent a <= Int64.max_signed →
  Contract.sum_powers c n <= Int64.max_signed →
  misc.slice_by_term in_ out dim spec
  = if Contract.sum_powers c n <=? Tensor.extent a
    then Ok (Contract.term in_ i a c <$> seq 0 n)
    else Throw c10_Error.
Proof.
  intros c n Hax Hc Hd Hext Hsum.
  unfold misc.slice_by_term. rewrite reserve_ok by exact Hd. fold c. fold n.
  cbn [mbind result_bind].
  destruct (Z.leb_spec (Contract.sum_powers c n) (Tensor.extent a)) as [Hfit|Hshort].
  - rewrite (slice_by_term_loop_blocks in_ dim i a c Hax Hc (proj2 Hext) n 0);
      [reflexivity | exact Hfit | reflexivity | ].
    intros _. change (Z.of_nat 1) with 1. lia.
  - apply (slice_by_term_loop_short in_ dim i a c Hax Hc n 0).
    + cbn [Contract.sum_powers Nat.add]. lia.
    + exact Hsum.
    + reflexivity.
    + change (Z.of_nat 1) with 1. lia.
Qed.

Lemma slice_by_term_outcome_witness :
  misc.slice_by_term (Scenario.contiguous 3 [4; 40; 2]) [] 1 Scenario.sigspec
  = Ok (Contract.term (Scenario.contiguous 3 [4; 40; 2]) 1
          {| Tensor.extent := 40; Tensor.stride := 2 |} 3 <$> seq 0 3)
  ∧ misc.slice_by_term (Scenario.contiguous 3 [4; 38; 2]) [] 1 Scenario.sigspec
    = Throw c10_Error.
Proof.
  split.
  - apply (slice_by_term_outcome (Scenario.contiguous 3 [4; 40; 2]) [] 1
             Scenario.sigspec 1 {| Tensor.extent := 40; Tensor.stride := 2 |}).
    + reflexivity.
    + cbn. lia.
    + split; [cbn; lia | vm_compute; discriminate].
    + split; [cbn; lia | vm_compute; discriminate].
    + vm_compute. discriminate.
  - apply (slice_by_term_outcome (Scenario.contiguous 3 [4; 38; 2]) [] 1
             Scenario.sigspec 1 {| Tensor.extent := 38; Tensor.stride := 2 |}).
    + reflexivity.
    + cbn. lia.
    + split; [cbn; lia | vm_compute; discriminate].
    + split; [cbn; lia | vm_compute; discriminate].
    + vm_compute. discriminate.
Defined.

(** Property X2. A negative depth makes [slice_by_term] throw
    [std::length_error], from the reservation of [out], before the buffer is
    looked at: the outcome is the same for every buffer and axis. *)
Theorem slice_by_term_negative_depth in_ out dim spec :
  misc.depth spec < 0 →
  misc.slice_by_term in_ out dim spec = Throw length_error.
Proof.
  intros Hd. unfold misc.slice_by_term.
  rewrite reserve_error by (left; exact Hd). reflexivity.
Qed.

Lemma slice_by_term_negative_depth_witness :
  misc.slice_by_term Scenario.signature [] 1
    {| misc.opts := Scenario.float_cpu; misc.input_stream_size := 5;
       misc.input_channels := 3; misc.batch_size := 2;
       misc.output_stream_size := 4; misc.output_channels := 0;
       misc.n_output_dims := 3; misc.depth := -1; misc.reciprocals := [];
       misc.stream := true; misc.basepoint := false |}
  = Throw length_error.
Proof. apply slice_by_term_negative_depth. cbn. lia. Defined.

(** Property X15. A depth above the largest size a vector of views can be
    asked to reserve, 2^60 - 1, makes [slice_by_term] throw
    [std::length_error] as a negative one does, before the buffer is looked
    at. *)
Theorem slice_by_term_oversized_depth in_ out dim spec :
  vector_max_size < misc.depth spec →
  misc.slice_by_term in_ out dim spec = Throw length_error.
Proof.
  intros Hd. unfold misc.slice_by_term.
  rewrite reserve_error by (right; exact Hd). reflexivity.
Qed.

Lemma slice_by_term_oversized_depth_witness :
  misc.slice_by_term (Scenario.contiguous 3 [4; 0; 2]) [] 1
    {| misc.opts := Scenario.float_cpu; misc.input_stream_size := 5;
       misc.input_channels := 0; misc.batch_size := 2;
       misc.output_stream_size := 4; misc.output_channels := 0;
       misc.n_output_dims := 3; misc.depth := 2 ^ 62; misc.reciprocals := [];
       misc.stream := true; misc.basepoint := false |}
  = Throw length_error.
Proof. apply slice_by_term_oversized_depth. vm_compute. reflexivity. Defined.

Lemma cell_at_position v a rest index idx :
  Tensor.axes v = a :: rest →
  0 <= index < Tensor.extent a →
  Tensor.cell (Contract.at_position v a index) idx = Tensor.cell v (index :: idx).
Proof.
  intros Hv Hin. unfold Tensor.cell, Contract.at_position.
  cbn [Tensor.axes Tensor.storage Tensor.storage_offset]. rewrite Hv.
  cbn [tail Tensor.offset_of].
  replace ((0 <=? index) && (index <? Tensor.extent a)) with true
    by (symmetry; apply andb_true_iff; split; [apply Z.leb_le | apply Z.ltb_lt]; lia).
  destruct (Tensor.offset_of rest idx); cbn; [do 2 f_equal; lia | reflexivity].
Qed.

Lemma slice_at_stream_loop_rows in_ stream_index acc :
  Forall (fun v => ∃ a rest, Tensor.axes v = a :: rest
                             ∧ 0 <= stream_index < Tensor.extent a) in_ →
  ∃ rows,
    misc.slice_at_stream_loop in_ stream_index acc = Ok (acc ++ rows)
    ∧ Forall2 (fun v row => ∃ a rest, Tensor.axes v = a :: rest
                 ∧ 0 <= stream_index < Tensor.extent a
                 ∧ row = Contract.at_position v a stream_index) in_ rows.
Proof.
  intros Hin. revert acc.
  induction Hin as [|v in_ (a & rest & Hv & Hidx) _ IH]; intros acc.
  - exists []. split; [cbn; rewrite app_nil_r; reflexivity | constructor].
  - cbn [misc.slice_at_stream_loop].
    pose proof (select_position v a rest stream_index Hv Hidx) as Hsel.
    destruct (Tensor.narrow v 0 stream_index 1) as [w|e];
      cbn [mbind result_bind] in Hsel |- *; [|discriminate].
    rewrite Hsel. cbn [mbind result_bind].
    destruct (IH (acc ++ [Contract.at_position v a stream_index])) as (rows & Hrows & Hall).
    exists (Contract.at_position v a stream_index :: rows). split.
    + rewrite Hrows, <- app_assoc. reflexivity.
    + constructor; [|exact Hall]. eauto 6.
Qed.

(** Property X3. When [stream_index] is a position of the first axis of
    every view of [in], [slice_at_stream] returns as many views as it was
    given, in the same order. Each one is on the storage of the view it
    comes from, has its sizes but for the first, and its element at an
    index is the element of that view at [stream_index] followed by that
    index. *)
Theorem slice_at_stream_rows in_ out stream_index :
  Forall (fun v => ∃ n, Tensor.sizes v !! 0%nat = Some n ∧ 0 <= stream_index < n) in_ →
  ∃ rows,
    misc.slice_at_stream in_ out stream_index = Ok rows
    ∧ length rows = length in_
    ∧ ∀ (k : nat) v row, in_ !! k = Some v → rows !! k = Some row →
        Tensor.storage row = Tensor.storage v
        ∧ Tensor.sizes row = tail (Tensor.sizes v)
        ∧ ∀ idx, Tensor.cell row idx = Tensor.cell v (stream_index :: idx).
Proof.
  intros Hin.
  assert (Hin' : Forall (fun v => ∃ a rest, Tensor.axes v = a :: rest
                                    ∧ 0 <= stream_index < Tensor.extent a) in_).
  { eapply Forall_impl; [exact Hin|]. intros v (n & Hn & Hidx). unfold Tensor.sizes in Hn.
    destruct (Tensor.axes v) as [|a rest]; [discriminate|].
    injection Hn as <-. eauto. }
  destruct (slice_at_stream_loop_rows in_ stream_index [] Hin') as (rows & Hrows & Hall).
  exists rows. split; [exact Hrows|]. split.
  - symmetry. eapply Forall2_length, Hall.
  - intros k v row Hv Hrow.
    destruct (Forall2_lookup_lr _ _ _ _ _ _ Hall Hv Hrow) as (a & rest & Hax & Hidx & ->).
    split; [reflexivity|]. split.
    + unfold Tensor.sizes, Contract.at_position. cbn [Tensor.axes]. rewrite Hax. reflexivity.
    + intros idx. apply (cell_at_position v a rest); assumption.
Qed.

Lemma slice_at_stream_rows_witness :
  ∃ rows,
    misc.slice_at_stream [Scenario.signature; Scenario.path_internal] [] 2 = Ok rows
    ∧ length rows = 2%nat
    ∧ ∀ (k : nat) v row,
        [Scenario.signature; Scenario.path_internal] !! k = Some v →
        rows !! k = Some row →
        Tensor.storage row = Tensor.storage v
        ∧ Tensor.sizes row = tail (Tensor.sizes v)
        ∧ ∀ idx, Tensor.cell row idx = Tensor.cell v (2 :: idx).
Proof.
  apply (slice_at_stream_rows [Scenario.signature; Scenario.path_internal] [] 2).
  repeat constructor.
  - exists 4. split; [reflexivity | lia].
  - exists 5. split; [reflexivity | lia].
Defined.

(** Property X4. A [stream_index] at or beyond the end of the first axis of
    the first view makes [slice_at_stream] throw the tensor library's error,
    whatever the other views are. *)
Theorem slice_at_stream_out_of_range x rest out stream_index n :
  Tensor.sizes x !! 0%nat = Some n →
  0 <= n <= stream_index →
  misc.slice_at_stream (x :: rest) out stream_index = Throw c10_Error.
Proof.
  intros Hn Hidx. unfold Tensor.sizes in Hn.
  destruct (Tensor.axes x) as [|a ax] eqn:Hax; [discriminate|]. injection Hn as <-.
  unfold misc.slice_at_stream. cbn [misc.slice_at_stream_loop].
  unfold Tensor.narrow.
  rewrite (axis_at x 0 a) by (rewrite ?Hax; done). cbn [mbind result_bind].
  unfold Tensor.narrow_start.
  destruct (Z.eqb_spec stream_index (Tensor.extent a)) as [->|Hne].
  - cbn [mbind result_bind].
    replace (Tensor.extent a <=? Tensor.extent a - 1) with false
      by (symmetry; apply Z.leb_gt; lia).
    rewrite andb_false_r. reflexivity.
  - replace (stream_index <? (if Tensor.extent a <=? 0 then 1 else Tensor.extent a))
      with false
      by (symmetry; apply Z.ltb_ge; destruct (Z.leb_spec (Tensor.extent a) 0); lia).
    rewrite andb_false_r. reflexivity.
Qed.

Lemma slice_at_stream_out_of_range_witness :
  misc.slice_at_stream [Scenario.signature] [] 4 = Throw c10_Error.
Proof.
  apply (slice_at_stream_out_of_range Scenario.signature [] [] 4 4).
  - reflexivity.
  - lia.
Defined.

(* ===================================================================== *)
(** ** Further properties of the layout conversion *)
(* ===================================================================== *)

Lemma axis_beyond x d :
  Tensor.ndimension x <= d → Tensor.axis x d = Throw c10_Error.
Proof.
  intros Hd. unfold Tensor.axis. rewrite wrap_dim_beyond by exact Hd. reflexivity.
Qed.

Lemma transpose_at x d0 d1 a b :
  0 <= d0 → 0 <= d1 →
  Tensor.axes x !! Z.to_nat d0 = Some a →
  Tensor.axes x !! Z.to_nat d1 = Some b →
  Tensor.transpose x d0 d1
  = Ok {| Tensor.storage := Tensor.storage x;
          Tensor.storage_offset := Tensor.storage_offset x;
          Tensor.axes := <[Z.to_nat d1 := a]> (<[Z.to_nat d0 := b]> (Tensor.axes x));
          Tensor.options := Tensor.options x |}.
Proof.
  intros H0 H1 Ha Hb. unfold Tensor.transpose.
  rewrite (axis_at x d0 a H0 Ha), (axis_at x d1 b H1 Hb). reflexivity.
Qed.

Lemma transpose_beyond x d0 d1 :
  Tensor.ndimension x <= d0 ∨ Tensor.ndimension x <= d1 →
  Tensor.transpose x d0 d1 = Throw c10_Error.
Proof.
  intros Hd. unfold Tensor.transpose.
  destruct (Tensor.axis x d0) as [[i a]|e] eqn:H0; cbn [mbind result_bind].
  - destruct Hd as [Hd|Hd]; [rewrite axis_beyond in H0 by exact Hd; discriminate|].
    rewrite axis_beyond by exact Hd. reflexivity.
  - unfold Tensor.axis in H0.
    destruct (Tensor.wrap_dim d0 _) as [i|e'] eqn:Hw; cbn [mbind result_bind] in H0.
    + destruct (Tensor.axes x !! i); [discriminate|]. congruence.
    + unfold Tensor.wrap_dim in Hw. destruct (_ && _); [discriminate|]. congruence.
Qed.

Ltac layout_cases x Hrank :=
  destruct x as [st off ax opt]; unfold Tensor.ndimension in *; cbn [Tensor.axes] in *;
  destruct ax as [|a0 [|a1 [|a2 rest]]]; cbn [length] in Hrank; try lia.

Ltac solve_transposes :=
  repeat (erewrite transpose_at by (cbn; first [done | lia]); cbn);
  reflexivity.

(** Property X5. [transpose] succeeds exactly on the tensors that have at
    least the axes of the layout (three with stream, two without) and
    throws the tensor library's error on the others. When it succeeds the
    result is a view on the same storage at the same offset whose leading
    axes are those of the argument in the external order, the axes beyond
    them staying in place, and [transpose_reverse] takes it back to the
    argument. *)
Theorem transpose_outcome x spec :
  if Contract.layout_rank (misc.stream spec) <=? Tensor.ndimension x
  then ∃ y, misc.transpose x spec = Ok y
         ∧ Tensor.storage y = Tensor.storage x
         ∧ Tensor.storage_offset y = Tensor.storage_offset x
         ∧ Tensor.axes y = Contract.to_external_axes (misc.stream spec) (Tensor.axes x)
         ∧ misc.transpose_reverse y spec = Ok x
  else misc.transpose x spec = Throw c10_Error.
Proof.
  unfold misc.transpose, misc.transpose_reverse, Contract.layout_rank.
  destruct (misc.stream spec);
    match goal with
    | |- context [?a <=? ?b] => destruct (Z.leb_spec a b) as [Hrank|Hrank]
    end.
  - layout_cases x Hrank.
    exists {| Tensor.storage := st; Tensor.storage_offset := off;
              Tensor.axes := a2 :: a0 :: a1 :: rest; Tensor.options := opt |}.
    repeat split; solve_transposes.
  - destruct (Z.le_gt_cases (Tensor.ndimension x) 2) as [H2|H2]; [|lia].
    rewrite (transpose_beyond x 1 2) by (right; exact H2). reflexivity.
  - destruct x as [st off ax opt]; unfold Tensor.ndimension in *; cbn [Tensor.axes] in *.
    destruct ax as [|a0 [|a1 rest]]; cbn [length] in Hrank; try lia.
    exists {| Tensor.storage := st; Tensor.storage_offset := off;
              Tensor.axes := a1 :: a0 :: rest; Tensor.options := opt |}.
    repeat split; solve_transposes.
  - rewrite (transpose_beyond x 0 1) by (right; lia). reflexivity.
Qed.

(** Property X6. [transpose_reverse] succeeds on the same tensors as
    [transpose], those with at least the axes of the layout, and throws the
    tensor library's error on the others. When it succeeds the result is a
    view on the same storage at the same offset whose leading axes are
    those of the argument in the internal order, and [transpose] takes it
    back to the argument: the two conversions are inverse in both
    directions. *)
Theorem transpose_reverse_outcome x spec :
  if Contract.layout_rank (misc.stream spec) <=? Tensor.ndimension x
  then ∃ y, misc.transpose_reverse x spec = Ok y
         ∧ Tensor.storage y = Tensor.storage x
         ∧ Tensor.storage_offset y = Tensor.storage_offset x
         ∧ Tensor.axes y = Contract.to_internal_axes (misc.stream spec) (Tensor.axes x)
         ∧ misc.transpose y spec = Ok x
  else misc.transpose_reverse x spec = Throw c10_Error.
Proof.
  unfold misc.transpose, misc.transpose_reverse, Contract.layout_rank.
  destruct (misc.stream spec);
    match goal with
    | |- context [?a <=? ?b] => destruct (Z.leb_spec a b) as [Hrank|Hrank]
    end.
  - layout_cases x Hrank.
    exists {| Tensor.storage := st; Tensor.storage_offset := off;
              Tensor.axes := a1 :: a2 :: a0 :: rest; Tensor.options := opt |}.
    repeat split; solve_transposes.
  - destruct x as [st off ax opt]; unfold Tensor.ndimension in *; cbn [Tensor.axes] in *.
    destruct ax as [|a0 [|a1 [|a2 rest]]]; cbn [length] in Hrank; try lia.
    + rewrite transpose_beyond by (left; unfold Tensor.ndimension; cbn; lia). reflexivity.
    + rewrite transpose_beyond by (right; unfold Tensor.ndimension; cbn; lia). reflexivity.
    + erewrite transpose_at by (cbn; first [done | lia]). cbn [mbind result_bind].
      rewrite transpose_beyond by (right; vm_compute; discriminate). reflexivity.
  - destruct x as [st off ax opt]; unfold Tensor.ndimension in *; cbn [Tensor.axes] in *.
    destruct ax as [|a0 [|a1 rest]]; cbn [length] in Hrank; try lia.
    exists {| Tensor.storage := st; Tensor.storage_offset := off;
              Tensor.axes := a1 :: a0 :: rest; Tensor.options := opt |}.
    repeat split; solve_transposes.
  - rewrite (transpose_beyond x 0 1) by (right; lia). reflexivity.
Qed.

(* ===================================================================== *)
(** ** Parity *)
(* ===================================================================== *)

(** Property X7. [is_even] is true exactly on the even integers, the
    negative ones included: the remainder of a negative odd number is -1,
    which is not 0 either. *)
Theorem is_even_even index : misc.is_even index = Z.even index.
Proof.
  unfold misc.is_even. rewrite Zeven_mod.
  destruct (Z.eqb_spec (Z.rem index 2) 0) as [E|E];
    destruct (Z.eqb_spec (index mod 2) 0) as [E'|E']; try reflexivity; exfalso.
  - apply E'. apply Z.rem_divide in E; [|lia]. apply Z.mod_divide; [lia | exact E].
  - apply E. apply Z.mod_divide in E'; [|lia]. apply Z.rem_divide; [lia | exact E'].
Qed.

(* ===================================================================== *)
(** ** Further properties of SigSpec and of the validators *)
(* ===================================================================== *)

(** Property X8. On a path with at least three axes, a channel size of at
    least 1 and a depth from 1 on, the constructor of [SigSpec] returns a
    record whose sizes are the first three sizes of the path taken as
    (stream, channel, batch), whose [output_stream_size] is the stream size,
    less one without a basepoint (so -1 for an empty stream: the constructor
    does not check it), whose [n_output_dims] is 3 with stream and 2
    without, and which keeps the depth, the two flags and the options of the
    path. Axes beyond the third are not looked at. *)
Theorem SigSpec_new_fields path depth stream basepoint channels :
  3 <= Tensor.ndimension path →
  Tensor.wf path →
  Tensor.sizes path !! 1%nat = Some channels →
  1 <= channels →
  1 <= depth <= Int64.max_signed →
  ∃ size0 size2 rest spec,
    Tensor.sizes path = size0 :: channels :: size2 :: rest
    ∧ misc.SigSpec_new path depth stream basepoint = Ok spec
    ∧ misc.opts spec = Tensor.options path
    ∧ misc.input_stream_size spec = size0
    ∧ misc.input_channels spec = channels
    ∧ misc.batch_size spec = size2
    ∧ misc.output_stream_size spec = size0 - (if basepoint then 0 else 1)
    ∧ misc.n_output_dims spec = (if stream then 3 else 2)
    ∧ misc.depth spec = depth
    ∧ misc.stream spec = stream
    ∧ misc.basepoint spec = basepoint.
Proof.
  intros Hrank Hwf Hch _ Hd.
  destruct (SigSpec_new_ok path depth stream basepoint Hrank Hd)
    as (s0 & s1 & s2 & recips & H0 & H1 & H2 & _ & Hnew).
  unfold Tensor.ndimension in Hrank. unfold Tensor.wf in Hwf.
  unfold Tensor.sizes in Hch |- *.
  destruct (Tensor.axes path) as [|a0 [|a1 [|a2 rest]]] eqn:Hax;
    cbn [length] in Hrank; try lia.
  rewrite (size_at path 0 a0) in H0 by (rewrite ?Hax; done).
  rewrite (size_at path 1 a1) in H1 by (rewrite ?Hax; done).
  rewrite (size_at path 2 a2) in H2 by (rewrite ?Hax; done).
  injection H0 as <-. injection H1 as <-. injection H2 as <-.
  injection Hch as <-.
  apply Forall_cons in Hwf as [Hs0 _].
  eexists _, _, _, _. split; [reflexivity|]. split; [exact Hnew|].
  cbn. repeat split.
  unfold Int64.sub. apply wrap_in_range.
  unfold Int64.in_range, Int64.min_signed, Int64.max_signed in *.
  assert (0 < Int64.half_modulus) by reflexivity. destruct basepoint; lia.
Qed.

Lemma SigSpec_new_fields_witness :
  ∃ size0 size2 rest spec,
    Tensor.sizes Scenario.path_internal = size0 :: 3 :: size2 :: rest
    ∧ misc.SigSpec_new Scenario.path_internal 3 false true = Ok spec
    ∧ misc.opts spec = Scenario.float_cpu
    ∧ misc.input_stream_size spec = size0
    ∧ misc.input_channels spec = 3
    ∧ misc.batch_size spec = size2
    ∧ misc.output_stream_size spec = size0 - 0
    ∧ misc.n_output_dims spec = 2
    ∧ misc.depth spec = 3
    ∧ misc.stream spec = false
    ∧ misc.basepoint spec = true.
Proof.
  apply (SigSpec_new_fields Scenario.path_internal 3 false true 3).
  - vm_compute. discriminate.
  - solve_wf.
  - reflexivity.
  - lia.
  - split; [lia | vm_compute; discriminate].
Defined.

(** Property X9. On a path with fewer than three axes the constructor of
    [SigSpec] throws the tensor library's error, for every depth and flags:
    one of [path.size(0)], [path.size(1)], [path.size(2)] is out of
    range. *)
Theorem SigSpec_new_rank_error path depth stream basepoint :
  Tensor.ndimension path < 3 →
  misc.SigSpec_new path depth stream basepoint = Throw c10_Error.
Proof.
  intros Hrank. unfold misc.SigSpec_new.
  assert (H2 : Tensor.size path 2 = Throw c10_Error).
  { unfold Tensor.size. rewrite axis_beyond by lia. reflexivity. }
  rewrite H2.
  destruct (Tensor.size path 0) as [s0|e0] eqn:H0; cbn [mbind result_bind].
  - destruct (Tensor.size path 1) as [s1|e1] eqn:H1; cbn [mbind result_bind];
      [reflexivity|].
    unfold Tensor.size, Tensor.axis, Tensor.wrap_dim in H1.
    destruct (_ && _); cbn [mbind result_bind] in H1;
      [destruct (Tensor.axes path !! _)|]; cbn in H1; congruence.
  - unfold Tensor.size, Tensor.axis, Tensor.wrap_dim in H0.
    destruct (_ && _); cbn [mbind result_bind] in H0;
      [destruct (Tensor.axes path !! _)|]; cbn in H0; congruence.
Qed.

Lemma SigSpec_new_rank_error_witness :
  misc.SigSpec_new Scenario.basepoint_value 3 true false = Throw c10_Error.
Proof. apply SigSpec_new_rank_error. reflexivity. Defined.

(** What [checkargs] has found when it returns. *)
Lemma checkargs_accepts_inv path depth basepoint basepoint_value :
  misc.checkargs path depth basepoint basepoint_value = Ok () →
  ∃ a0 a1 a2,
    Tensor.axes path = [a0; a1; a2]
    ∧ Tensor.extent a0 ≠ 0 ∧ Tensor.extent a1 ≠ 0 ∧ Tensor.extent a2 ≠ 0
    ∧ (basepoint = false → Tensor.extent a1 ≠ 1)
    ∧ 1 <= depth
    ∧ (basepoint = true →
       Tensor.sizes basepoint_value = [Tensor.extent a0; Tensor.extent a2]).
Proof.
  unfold misc.checkargs.
  rewrite (ndimension_eqb path 3 3), (ndimension_eqb basepoint_value 2 2) by reflexivity.
  case_bool_decide as Hrank; cbn [negb]; [|discriminate].
  destruct (axes_three _ Hrank) as (a0 & a1 & a2 & Hax).
  rewrite (size_at path 0 a0), (size_at path 1 a1), (size_at path 2 a2)
    by (rewrite ?Hax; done).
  unfold equal, differ, compare. simpl_checks.
  destruct (Z.eqb_spec (Tensor.extent a0) 0); simpl_checks; [discriminate|].
  destruct (Z.eqb_spec (Tensor.extent a1) 0); simpl_checks; [discriminate|].
  destruct (Z.eqb_spec (Tensor.extent a2) 0); simpl_checks; [discriminate|].
  destruct basepoint; simpl_checks.
  - destruct (Z.ltb_spec depth 1); [discriminate|].
    case_bool_decide as Hbrank; simpl_checks; [|discriminate].
    destruct (axes_two _ Hbrank) as (b0 & b1 & Hbx).
    rewrite (size_at basepoint_value 0 b0), (size_at basepoint_value 1 b1)
      by (rewrite ?Hbx; done).
    simpl_checks.
    destruct (Z.eqb_spec (Tensor.extent b0) (Tensor.extent a0)) as [E0|E0];
      simpl_checks; [|discriminate].
    destruct (Z.eqb_spec (Tensor.extent b1) (Tensor.extent a2)) as [E2|E2];
      simpl_checks; [|discriminate].
    intros _. exists a0, a1, a2. repeat split; try assumption; try lia; try discriminate.
    intros _. unfold Tensor.sizes. rewrite Hbx. cbn. congruence.
  - destruct (Z.eqb_spec (Tensor.extent a1) 1); simpl_checks; [discriminate|].
    destruct (Z.ltb_spec depth 1); [discriminate|].
    intros _. exists a0, a1, a2. repeat split; try assumption; try lia; discriminate.
Qed.

(** Property X10. Whatever tensors it is given, well formed or not,
    [checkargs] either returns or throws [std::invalid_argument] with one of
    its six messages: every [size] it calls is on an axis it has checked to
    exist, so no error of the tensor library comes out of it. *)
Theorem checkargs_only_invalid_argument path depth basepoint basepoint_value :
  misc.checkargs path depth basepoint basepoint_value = Ok ()
  ∨ ∃ r, misc.checkargs path depth basepoint basepoint_value
         = Throw (invalid_argument (Contract.message r)).
Proof.
  unfold misc.checkargs.
  rewrite (ndimension_eqb path 3 3), (ndimension_eqb basepoint_value 2 2) by reflexivity.
  case_bool_decide as Hrank; cbn [negb]; [|right; exists Contract.path_rank; reflexivity].
  destruct (axes_three _ Hrank) as (a0 & a1 & a2 & Hax).
  rewrite (size_at path 0 a0), (size_at path 1 a1), (size_at path 2 a2)
    by (rewrite ?Hax; done).
  unfold equal, differ, compare. simpl_checks.
  destruct (Tensor.extent a0 =? 0); simpl_checks;
    [right; exists Contract.path_nonzero; reflexivity|].
  destruct (Tensor.extent a1 =? 0); simpl_checks;
    [right; exists Contract.path_nonzero; reflexivity|].
  destruct (Tensor.extent a2 =? 0); simpl_checks;
    [right; exists Contract.path_nonzero; reflexivity|].
  destruct basepoint; simpl_checks.
  - destruct (depth <? 1); [right; exists Contract.depth_positive; reflexivity|].
    case_bool_decide as Hbrank; simpl_checks;
      [|right; exists Contract.basepoint_rank; reflexivity].
    destruct (axes_two _ Hbrank) as (b0 & b1 & Hbx).
    rewrite (size_at basepoint_value 0 b0), (size_at basepoint_value 1 b1)
      by (rewrite ?Hbx; done).
    simpl_checks.
    destruct (Tensor.extent b0 =? Tensor.extent a0); simpl_checks;
      [|right; exists Contract.basepoint_shape; reflexivity].
    destruct (Tensor.extent b1 =? Tensor.extent a2); simpl_checks;
      [left; reflexivity | right; exists Contract.basepoint_shape; reflexivity].
  - destruct (Tensor.extent a1 =? 1); simpl_checks;
      [right; exists Contract.stream_length; reflexivity|].
    destruct (depth <? 1); [right; exists Contract.depth_positive; reflexivity|].
    left; reflexivity.
Qed.

(** Property X11. A path that [checkargs] accepts can be taken to the
    internal layout and given to the constructor of [SigSpec]: both
    succeed, the record has the batch, stream and channel sizes of the
    path, the batch and channel sizes are at least 1 and so is
    [output_stream_size]; and a basepoint that was accepted has the sizes
    (batch, channel) of the record. *)
Theorem validated_path_sigspec path depth basepoint basepoint_value stream layout :
  Tensor.wf path →
  depth <= Int64.max_signed →
  misc.checkargs path depth basepoint basepoint_value = Ok () →
  misc.stream layout = true →
  ∃ internal spec,
    misc.transpose_reverse path layout = Ok internal
    ∧ misc.SigSpec_new internal depth stream basepoint = Ok spec
    ∧ Tensor.sizes path
      = [misc.batch_size spec; misc.input_stream_size spec; misc.input_channels spec]
    ∧ 1 <= misc.batch_size spec
    ∧ 1 <= misc.input_channels spec
    ∧ 1 <= misc.output_stream_size spec
    ∧ (basepoint = true →
       Tensor.sizes basepoint_value = [misc.batch_size spec; misc.input_channels spec]).
Proof.
  intros Hwf Hmax Hcheck Hlayout.
  destruct (checkargs_accepts_inv _ _ _ _ Hcheck)
    as (a0 & a1 & a2 & Hax & H0 & H1 & H2 & Hstream & Hdepth & Hbase).
  unfold Tensor.wf in Hwf. rewrite Hax in Hwf.
  apply Forall_cons in Hwf as [W0 Hwf]. apply Forall_cons in Hwf as [W1 Hwf].
  apply Forall_cons in Hwf as [W2 _].
  set (internal := {| Tensor.storage := Tensor.storage path;
                      Tensor.storage_offset := Tensor.storage_offset path;
                      Tensor.axes := [a1; a2; a0];
                      Tensor.options := Tensor.options path |}).
  assert (Hrank : 3 <= Tensor.ndimension internal) by (vm_compute; discriminate).
  destruct (SigSpec_new_ok internal depth stream basepoint Hrank ltac:(lia))
    as (s0 & s1 & s2 & recips & S0 & S1 & S2 & _ & Hnew).
  rewrite (size_at internal 0 a1) in S0 by done.
  rewrite (size_at internal 1 a2) in S1 by done.
  rewrite (size_at internal 2 a0) in S2 by done.
  injection S0 as <-. injection S1 as <-. injection S2 as <-.
  exists internal. eexists. split; [|split; [exact Hnew|]].
  - unfold misc.transpose_reverse. rewrite Hlayout.
    erewrite transpose_at by (rewrite ?Hax; cbn; first [done | lia]).
    cbn [mbind result_bind].
    erewrite transpose_at by (cbn; rewrite ?Hax; cbn; first [done | lia]).
    cbn. rewrite Hax. reflexivity.
  - cbn [misc.batch_size misc.input_stream_size misc.input_channels
         misc.output_stream_size].
    split; [unfold Tensor.sizes; rewrite Hax; reflexivity|].
    split; [lia|]. split; [lia|]. split; [|exact Hbase].
    unfold Int64.sub. rewrite wrap_in_range.
    + destruct basepoint; [lia|]. specialize (Hstream eq_refl). lia.
    + unfold Int64.in_range, Int64.min_signed, Int64.max_signed in *.
      assert (0 < Int64.half_modulus) by reflexivity. destruct basepoint; lia.
Qed.

Lemma validated_path_sigspec_witness :
  ∃ internal spec,
    misc.transpose_reverse Scenario.path Scenario.sigspec = Ok internal
    ∧ misc.SigSpec_new internal 3 true false = Ok spec
    ∧ Tensor.sizes Scenario.path
      = [misc.batch_size spec; misc.input_stream_size spec; misc.input_channels spec]
    ∧ 1 <= misc.batch_size spec
    ∧ 1 <= misc.input_channels spec
    ∧ 1 <= misc.output_stream_size spec
    ∧ (false = true →
       Tensor.sizes Scenario.basepoint_value
       = [misc.batch_size spec; misc.input_channels spec]).
Proof.
  apply (validated_path_sigspec Scenario.path 3 false Scenario.basepoint_value true
           Scenario.sigspec).
  - solve_wf.
  - vm_compute. discriminate.
  - reflexivity.
  - reflexivity.
Defined.

(* ===================================================================== *)
(** ** Further properties of the capsule *)
(* ===================================================================== *)

Lemma destructor_frees_witness :
  misc.detail.BackwardsInfoCapsuleDestructor
    (Python.PyCapsule 1 (Some misc.detail.backwards_info_capsule_name)
       (Some Python.BackwardsInfoCapsuleDestructor_fn))
    {[ 1%positive := misc.BackwardsInfo_new Scenario.sigspec [] Scenario.grad
                       Scenario.path_internal ]}
    None
  = (∅, None).
Proof.
  apply (destructor_frees [] Scenario.grad Scenario.path_internal Scenario.sigspec
           ∅ None).
  reflexivity.
Defined.

(** Property X12. Two contexts made one after the other live at different
    addresses, each capsule gives back its own address, and each object has
    the data it was made from: making the second one, and extending it with
    [set_logsignature_data], leave the first one as it was. *)
Theorem contexts_are_separate out_vector1 out1 path_increments1 sigspec1
    out_vector2 out2 path_increments2 sigspec2 h err :
  ∃ capsule1 capsule2 p1 p2 h1 h2,
    misc.make_backwards_info out_vector1 out1 path_increments1 sigspec1 h err
    = (Some capsule1, h1, err)
    ∧ misc.make_backwards_info out_vector2 out2 path_increments2 sigspec2 h1 err
      = (Some capsule2, h2, err)
    ∧ misc.get_backwards_info capsule1 err = (Some p1, err)
    ∧ misc.get_backwards_info capsule2 err = (Some p2, err)
    ∧ p1 ≠ p2
    ∧ h2 !! p1 = Some (misc.BackwardsInfo_new sigspec1 out_vector1 out1 path_increments1)
    ∧ h2 !! p2 = Some (misc.BackwardsInfo_new sigspec2 out_vector2 out2 path_increments2)
    ∧ ∀ signature_vector transforms mode logsignature_channels,
        misc.set_logsignature_data_at p2 signature_vector transforms mode
          logsignature_channels h2 !! p1
        = Some (misc.BackwardsInfo_new sigspec1 out_vector1 out1 path_increments1).
Proof.
  set (b1 := misc.BackwardsInfo_new sigspec1 out_vector1 out1 path_increments1).
  set (b2 := misc.BackwardsInfo_new sigspec2 out_vector2 out2 path_increments2).
  set (p1 := fresh (dom h)).
  set (h1 := <[p1 := b1]> h).
  set (p2 := fresh (dom h1)).
  assert (Hne : p1 ≠ p2).
  { intros E. pose proof (fresh_address_free h1) as Hfree. fold p2 in Hfree.
    rewrite <- E in Hfree. unfold h1 in Hfree. rewrite lookup_insert_eq in Hfree.
    discriminate. }
  eexists _, _, p1, p2, h1, (<[p2 := b2]> h1).
  split; [reflexivity|]. split; [reflexivity|].
  split; [reflexivity|]. split; [reflexivity|]. split; [exact Hne|].
  split; [|split].
  - rewrite lookup_insert_ne by congruence. apply lookup_insert_eq.
  - apply lookup_insert_eq.
  - intros sv tr m lc. unfold misc.set_logsignature_data_at.
    rewrite lookup_alter_ne by congruence.
    rewrite lookup_insert_ne by congruence. apply lookup_insert_eq.
Qed.

(** Property X14. The destructor frees one object, the one at the address
    in the capsule, when the handle carries the name of the [BackwardsInfo]
    capsules, and leaves the error indicator as it was. On any other handle
    it frees nothing: the free store is unchanged and the error indicator is
    set to a [ValueError]. *)
Theorem destructor_effect capsule (h : gmap positive misc.BackwardsInfo) err :
  if Contract.has_tag capsule
  then ∃ p name destructor,
         capsule = Python.PyCapsule p name destructor
         ∧ misc.detail.BackwardsInfoCapsuleDestructor capsule h err = (delete p h, err)
  else ∃ msg,
         misc.detail.BackwardsInfoCapsuleDestructor capsule h err
         = (h, Some (Python.ValueError msg)).
Proof.
  unfold Contract.has_tag, misc.detail.BackwardsInfoCapsuleDestructor,
    Python.PyCapsule_GetPointer, misc.detail.backwards_info_capsule_name.
  destruct capsule as [p [name|] d|]; [| cbn; eauto | eauto].
  destruct (String.eqb_spec name "signatory.BackwardsInfoCapsule") as [->|Hne].
  - rewrite decide_True by reflexivity. eauto.
  - rewrite decide_False by congruence. eauto.
Qed.
